(** * Shift Flight Deck rules engine: DSL parser, predicates, evaluator, ranker

    A shallow embedding of [scripts/analyze_workbook.py] and the properties
    of its rule DSL, predicate library, evaluator, ranker, sanitizer and
    rule linter.

    Conventions of the embedding.
    - A Python [str] is a [string] of 8-bit characters read as the code
      points U+0000..U+00FF; the character classes of [str.strip], [\s],
      [\d], [str.lower] are the ones Python uses on that range.
    - A Python [float] is a binary64 [float]; an [int] is a [Z].
    - A raised exception is the [Err] case of [result]; the evaluator runs in
      a small state-and-error monad whose state counts the readings taken
      from the wall clock ([dt.datetime.now()]).
    - A [dict] is an association list in insertion order, a [set] a
      duplicate-free list; the order in which Python iterates a set is not
      specified, the lists fix one. *)

From Stdlib Require Import ZArith List Bool Ascii String Floats Lia Permutation Sorted.
From Stdlib Require Import DecimalString.
Import ListNotations.
Open Scope string_scope.
Open Scope Z_scope.

Set Warnings "-inexact-float".

(** ** Exceptions *)

Inductive py_error : Type :=
| ValueError
| OverflowError.

Inductive result (A : Type) : Type :=
| Ok (a : A)
| Err (e : py_error).
Arguments Ok {A} a.
Arguments Err {A} e.

Definition rbind {A B} (r : result A) (k : A -> result B) : result B :=
  match r with
  | Ok a => k a
  | Err e => Err e
  end.

Definition is_ok {A} (r : result A) : bool :=
  match r with Ok _ => true | Err _ => false end.

(** ** Characters and strings as Python sees them *)

Module Py.

Definition code (c : ascii) : N := N_of_ascii c.

Definition in_range (lo hi : N) (c : ascii) : bool :=
  (N.leb lo (code c) && N.leb (code c) hi)%bool.

(** [str.isspace] and the regex class [\s] on U+0000..U+00FF. *)
Definition is_space (c : ascii) : bool :=
  (in_range 9 13 c || in_range 28 32 c
   || N.eqb (code c) 133 || N.eqb (code c) 160)%bool.

(** The regex class [\d] on the same range: the ASCII digits only. *)
Definition is_digit (c : ascii) : bool := in_range 48 57 c.

(** [[A-Z_]] *)
Definition is_upper_us (c : ascii) : bool :=
  (in_range 65 90 c || N.eqb (code c) 95)%bool.

(** [[a-zA-Z_]] *)
Definition is_ident (c : ascii) : bool :=
  (in_range 97 122 c || is_upper_us c)%bool.

Definition nl : ascii := ascii_of_N 10.

Definition ascii_shift (c : ascii) (d : Z) : ascii :=
  ascii_of_N (Z.to_N (Z.of_N (code c) + d)).

Definition lower_char (c : ascii) : ascii :=
  if (in_range 65 90 c
      || (in_range 192 222 c && negb (N.eqb (code c) 215)))%bool
  then ascii_shift c 32 else c.

(** [str.upper] on one character.  Python sends U+00B5, U+00DF and U+00FF
    out of the 8-bit range (or to two letters); none of them upper-cases to
    an ASCII letter, and the code only compares the result with ["TRUE"], so
    they are left in place. *)
Definition upper_char (c : ascii) : ascii :=
  if (in_range 97 122 c
      || (in_range 224 254 c && negb (N.eqb (code c) 247)))%bool
  then ascii_shift c (-32) else c.

Fixpoint smap (f : ascii -> ascii) (s : string) : string :=
  match s with
  | EmptyString => EmptyString
  | String c r => String (f c) (smap f r)
  end.

Definition lower (s : string) : string := smap lower_char s.
Definition upper (s : string) : string := smap upper_char s.

Fixpoint sall (p : ascii -> bool) (s : string) : bool :=
  match s with
  | EmptyString => true
  | String c r => (p c && sall p r)%bool
  end.

Fixpoint smem (c : ascii) (s : string) : bool :=
  match s with
  | EmptyString => false
  | String d r => (Ascii.eqb c d || smem c r)%bool
  end.

(** [s.lstrip()] / [s.rstrip()] / [s.strip()] with a character predicate. *)
Fixpoint lstrip_by (p : ascii -> bool) (s : string) : string :=
  match s with
  | EmptyString => EmptyString
  | String c r => if p c then lstrip_by p r else s
  end.

Fixpoint rstrip_by (p : ascii -> bool) (s : string) : string :=
  match s with
  | EmptyString => EmptyString
  | String c r =>
      match rstrip_by p r with
      | EmptyString => if p c then EmptyString else String c EmptyString
      | r' => String c r'
      end
  end.

Definition strip_by (p : ascii -> bool) (s : string) : string :=
  rstrip_by p (lstrip_by p s).

Definition strip (s : string) : string := strip_by is_space s.

Definition dquote : ascii := ascii_of_N 34.

(** [s.strip(q)] with [q] the double-quote character. *)
Definition strip_quotes (s : string) : string :=
  strip_by (Ascii.eqb dquote) s.

(** The longest prefix whose characters satisfy [p], and what follows it. *)
Fixpoint span (p : ascii -> bool) (s : string) : string * string :=
  match s with
  | EmptyString => (EmptyString, EmptyString)
  | String c r =>
      if p c then let (a, b) := span p r in (String c a, b)
      else (EmptyString, s)
  end.

(** [sub in s] *)
Fixpoint contains (sub s : string) : bool :=
  (prefix sub s ||
   match s with
   | EmptyString => false
   | String _ r => contains sub r
   end)%bool.

(** [s.split(sep)] for a one-character separator: never an empty list. *)
Fixpoint split_char (sep : ascii) (s : string) : string * list string :=
  match s with
  | EmptyString => (EmptyString, [])
  | String c r =>
      let (p, ps) := split_char sep r in
      if Ascii.eqb c sep then (EmptyString, p :: ps) else (String c p, ps)
  end.

Definition split (sep : ascii) (s : string) : list string :=
  let (p, ps) := split_char sep s in p :: ps.

(** [s.split(sep, 1)]: [None] when [sep] does not occur, else the text before
    and after its first occurrence. *)
Fixpoint split_once (sep : ascii) (s : string) : option (string * string) :=
  match s with
  | EmptyString => None
  | String c r =>
      if Ascii.eqb c sep then Some (EmptyString, r)
      else match split_once sep r with
           | Some (a, b) => Some (String c a, b)
           | None => None
           end
  end.

(** [sep.join(l)] *)
Definition join (sep : string) (l : list string) : string := String.concat sep l.

(** [s.replace(old, empty)] for a non-empty [old]: every occurrence, leftmost
    first, without overlap.  [skip] counts the characters of an occurrence
    still to be dropped. *)
Fixpoint remove_all_go (old : string) (skip : nat) (s : string) : string :=
  match s with
  | EmptyString => EmptyString
  | String c r =>
      match skip with
      | S k => remove_all_go old k r
      | O => if prefix old s then remove_all_go old (Nat.pred (String.length old)) r
             else String c (remove_all_go old O r)
      end
  end.

Definition remove_all (old s : string) : string := remove_all_go old O s.

End Py.

(** ** Numbers *)

Module Num.

(** The value of a string of ASCII digits, most significant first. *)
Fixpoint digits_val (acc : Z) (s : string) : Z :=
  match s with
  | EmptyString => acc
  | String c r => digits_val (10 * acc + (Z.of_N (Py.code c) - 48)) r
  end.

(** The binary64 nearest to [n / d] (ties to even), for [0 <= n], [0 < d],
    negated when [neg]: what [float(text)] computes from a decimal numeral.
    The quotient is taken with at least 55 significant bits and one more bit
    that records whether anything was cut off, so that the single rounding of
    [binary_normalize] decides as the exact value would. *)
Definition float_of_ratio (neg : bool) (n d : Z) : float :=
  if n =? 0 then (if neg then neg_zero else zero)
  else
    let k := Z.max 0 (56 + Z.log2 d - Z.log2 n) in
    let num := n * 2 ^ k in
    let q := num / d in
    let sticky := if num mod d =? 0 then 0 else 1 in
    let m := 2 * q + sticky in
    SF2Prim (binary_normalize prec emax (if neg then - m else m) (- k - 1) neg).

(** [float(z)] for an [int]: correctly rounded, [OverflowError] when the
    nearest binary64 is not finite. *)
Definition float_of_Z (z : Z) : result float :=
  let f := SF2Prim (binary_normalize prec emax z 0 false) in
  if is_infinity f then Err OverflowError else Ok f.

(** [int(f)] for a [float]: truncation towards zero; [ValueError] on NaN,
    [OverflowError] on an infinity. *)
Definition Z_of_float (f : float) : result Z :=
  match Prim2SF f with
  | S754_nan => Err ValueError
  | S754_infinity _ => Err OverflowError
  | S754_zero _ => Ok 0
  | S754_finite s m e =>
      let a := if 0 <=? e then Z.pos m * 2 ^ e else Z.pos m / 2 ^ (- e) in
      Ok (if s then - a else a)
  end.

(** The white space [int(text)] and [float(text)] strip: the ASCII white
    space and the non-ASCII spaces, but not U+001C..U+001F. *)
Definition is_num_space (c : ascii) : bool :=
  (Py.in_range 9 13 c || N.eqb (Py.code c) 32
   || N.eqb (Py.code c) 133 || N.eqb (Py.code c) 160)%bool.

(** After a first digit: more digits, each optionally preceded by one
    underscore.  Returns the digits read and the text left. *)
Fixpoint digitpart_go (s : string) : string * string :=
  match s with
  | EmptyString => (EmptyString, EmptyString)
  | String c r =>
      if Py.is_digit c then let (d, t) := digitpart_go r in (String c d, t)
      else if Ascii.eqb c "_"%char then
        match r with
        | String c2 r2 =>
            if Py.is_digit c2 then let (d, t) := digitpart_go r2 in (String c2 d, t)
            else (EmptyString, s)
        | EmptyString => (EmptyString, s)
        end
      else (EmptyString, s)
  end.

Definition digitpart (s : string) : option (string * string) :=
  match s with
  | String c r =>
      if Py.is_digit c then let (d, t) := digitpart_go r in Some (String c d, t)
      else None
  | EmptyString => None
  end.

Definition take_sign (s : string) : bool * string :=
  match s with
  | String "-"%char r => (true, r)
  | String "+"%char r => (false, r)
  | _ => (false, s)
  end.

(** [int(text)]: [None] stands for [ValueError]. *)
Definition int_of_str (s : string) : option Z :=
  let '(neg, body) := take_sign (Py.strip_by is_num_space s) in
  match digitpart body with
  | Some (ds, EmptyString) =>
      let z := digits_val 0 ds in Some (if neg then - z else z)
  | _ => None
  end.

(** The exponent part of a float numeral, if any: [e] or [E], a sign, digits. *)
Definition exponent (s : string) : option Z :=
  match s with
  | EmptyString => Some 0
  | String c r =>
      if (Ascii.eqb c "e"%char || Ascii.eqb c "E"%char)%bool then
        let '(neg, body) := take_sign r in
        match digitpart body with
        | Some (ds, EmptyString) =>
            let z := digits_val 0 ds in Some (if neg then - z else z)
        | _ => None
        end
      else None
  end.

Definition float_of_decimal (neg : bool) (ip fp : string) (ex : Z) : float :=
  let n := digits_val 0 (ip ++ fp) in
  let d := 10 ^ Z.of_nat (String.length fp) in
  if 0 <=? ex then float_of_ratio neg (n * 10 ^ ex) d
  else float_of_ratio neg n (d * 10 ^ (- ex)).

(** [float(text)]: [None] stands for [ValueError]. *)
Definition float_of_str (s : string) : option float :=
  let '(neg, body) := take_sign (Py.strip_by is_num_space s) in
  let low := Py.lower body in
  if (String.eqb low "inf" || String.eqb low "infinity")%bool
  then Some (if neg then neg_infinity else infinity)
  else if String.eqb low "nan" then Some nan
  else
    let '(ip, r1) := match digitpart body with
                     | Some (ds, t) => (ds, t)
                     | None => (EmptyString, body)
                     end in
    let '(fp, r2) := match r1 with
                     | String "."%char t =>
                         match digitpart t with
                         | Some (ds, t') => (ds, t')
                         | None => (EmptyString, t)
                         end
                     | _ => (EmptyString, r1)
                     end in
    match ip ++ fp with
    | EmptyString => None
    | _ => match exponent r2 with
           | Some ex => Some (float_of_decimal neg ip fp ex)
           | None => None
           end
    end.

(** [str(z)] for an [int]. *)
Definition str_of_Z (z : Z) : string :=
  NilZero.string_of_int (Z.to_int z).

(** Decimal digits of a natural number, left-padded with zeros to [width]. *)
Fixpoint zeros (n : nat) : string :=
  match n with O => EmptyString | S k => String "0"%char (zeros k) end.

Definition pad (width : nat) (z : Z) : string :=
  let s := str_of_Z z in
  zeros (width - String.length s) ++ s.

(** *** [repr] of a float: the shortest digits that read back as the float *)

(** The largest [p] with [10^p <= a / b], for positive [a], [b]: a first
    guess from the binary logarithms, then at most a few steps. *)
Fixpoint log10_fix (fuel : nat) (a b p : Z) : Z :=
  match fuel with
  | O => p
  | S k =>
      let le_pow q := if 0 <=? q then b * 10 ^ q <=? a else b <=? a * 10 ^ (- q) in
      if negb (le_pow p) then log10_fix k a b (p - 1)
      else if le_pow (p + 1) then log10_fix k a b (p + 1)
      else p
  end.

Definition log10_floor (a b : Z) : Z :=
  log10_fix 8 a b (((Z.log2 a - Z.log2 b) * 30103) / 100000).

(** The digits of length [n] nearest to [a / b] (whose leading digit has
    weight [10^p]) that read back as [f], if one of the two neighbours does:
    the digits as an integer and the weight of its leading digit. *)
Definition try_digits (f : float) (a b p : Z) (n : Z) : option (Z * Z) :=
  let sh := n - 1 - p in
  let '(num, den) := if 0 <=? sh then (a * 10 ^ sh, b) else (a, b * 10 ^ (- sh)) in
  let lo := num / den in
  let hi := lo + 1 in
  let back (d : Z) : bool :=
    PrimFloat.Leibniz.eqb f
      (if 0 <=? sh then float_of_ratio false d (10 ^ sh)
       else float_of_ratio false (d * 10 ^ (- sh)) 1) in
  let norm (d : Z) : Z * Z := if d =? 10 ^ n then (10 ^ (n - 1), p + 1) else (d, p) in
  let twice := 2 * (num - lo * den) in
  let lo_first := match twice ?= den with
                  | Lt => true
                  | Gt => false
                  | Eq => Z.even lo
                  end in
  let '(c1, c2) := if lo_first then (lo, hi) else (hi, lo) in
  if (10 ^ (n - 1) <=? c1) && back c1 then Some (norm c1)
  else if (10 ^ (n - 1) <=? c2) && back c2 then Some (norm c2)
  else None.

Fixpoint shortest_digits (fuel : nat) (f : float) (a b p n : Z) : Z * Z :=
  match fuel with
  | O => (0, 0)
  | S k =>
      match try_digits f a b p n with
      | Some r => r
      | None => shortest_digits k f a b p (n + 1)
      end
  end.

Fixpoint strip_trailing_zeros (fuel : nat) (d : Z) : Z :=
  match fuel with
  | O => d
  | S k => if (d mod 10 =? 0) && negb (d =? 0) then strip_trailing_zeros k (d / 10) else d
  end.

(** The layout of [repr]: positional when the decimal point falls within
    [-4 < decpt <= 16], else scientific with a two-digit exponent at least. *)
Definition layout (neg : bool) (digits : string) (decpt : Z) : string :=
  let sign := if neg then "-" else "" in
  let nd := Z.of_nat (String.length digits) in
  if (-4 <? decpt) && (decpt <=? 16) then
    if decpt <=? 0 then sign ++ "0." ++ zeros (Z.to_nat (- decpt)) ++ digits
    else if nd <=? decpt then sign ++ digits ++ zeros (Z.to_nat (decpt - nd)) ++ ".0"
    else sign ++ substring 0 (Z.to_nat decpt) digits ++ "."
              ++ substring (Z.to_nat decpt) (Z.to_nat (nd - decpt)) digits
  else
    let e := decpt - 1 in
    let mant := match digits with
                | String c EmptyString => digits
                | String c r => String c ("." ++ r)
                | EmptyString => digits
                end in
    sign ++ mant ++ "e" ++ (if e <? 0 then "-" else "+") ++ pad 2 (Z.abs e).

(** [repr(f)], which is also [str(f)]. *)
Definition repr_float (f : float) : string :=
  match Prim2SF f with
  | S754_nan => "nan"
  | S754_infinity s => if s then "-inf" else "inf"
  | S754_zero s => if s then "-0.0" else "0.0"
  | S754_finite s m e =>
      let '(a, b) := if 0 <=? e then (Z.pos m * 2 ^ e, 1) else (Z.pos m, 2 ^ (- e)) in
      let p := log10_floor a b in
      let '(d, p') := shortest_digits 17 (abs f) a b p 1 in
      layout s (str_of_Z (strip_trailing_zeros 17 d)) (p' + 1)
  end.

End Num.

(** ** Date-times *)

Module DT.

(** A naive [datetime]: the microseconds elapsed since 0001-01-01T00:00:00,
    so that [<] and [>=] on date-times are those of [Z]. *)
Definition datetime : Type := Z.

Definition us_per_second : Z := 1000000.
Definition us_per_hour : Z := 3600 * us_per_second.
Definition us_per_day : Z := 24 * us_per_hour.

(** [datetime.min] and [datetime.max]. *)
Definition min_dt : datetime := 0.
Definition max_dt : datetime := 3652059 * us_per_day - 1.

Definition is_leap (y : Z) : bool :=
  ((y mod 4 =? 0) && (negb (y mod 100 =? 0) || (y mod 400 =? 0)))%bool.

Definition days_in_month (y m : Z) : Z :=
  if m =? 2 then (if is_leap y then 29 else 28)
  else if (m =? 4) || (m =? 6) || (m =? 9) || (m =? 11) then 30
  else 31.

Definition days_before_year (y : Z) : Z :=
  let p := y - 1 in p * 365 + p / 4 - p / 100 + p / 400.

Definition days_before_month (y m : Z) : Z :=
  fold_left (fun acc k => acc + days_in_month y (Z.of_nat k)) (seq 1 (Z.to_nat (m - 1))) 0.

(** The ordinal of a calendar day, 0001-01-01 being day 1. *)
Definition ymd2ord (y m d : Z) : Z :=
  days_before_year y + days_before_month y m + d.

(** Its inverse, by the 400/100/4/1 year cycles. *)
Definition ord2ymd (ordinal : Z) : Z * Z * Z :=
  let n := ordinal - 1 in
  let n400 := n / 146097 in
  let n := n mod 146097 in
  let n100 := n / 36524 in
  let n := n mod 36524 in
  let n4 := n / 1461 in
  let n := n mod 1461 in
  let n1 := n / 365 in
  let n := n mod 365 in
  let year := n400 * 400 + 1 + n100 * 100 + n4 * 4 + n1 in
  if (n1 =? 4) || (n100 =? 4) then (year - 1, 12, 31)
  else
    let leapyear := (n1 =? 3) && (negb (n4 =? 24) || (n100 =? 3)) in
    let before m := days_before_month 1 m + (if (2 <? m) && leapyear then 1 else 0) in
    let month := Z.shiftr (n + 50) 5 in
    let month := if n <? before month then month - 1 else month in
    (year, month, n - before month + 1).

(** The constructor [datetime(y, m, d, hh, mi, ss)]: [None] stands for the
    [ValueError] of a field out of range. *)
Definition make (y m d hh mi ss : Z) : option datetime :=
  if (1 <=? y) && (y <=? 9999) && (1 <=? m) && (m <=? 12)
     && (1 <=? d) && (d <=? days_in_month y m)
     && (0 <=? hh) && (hh <=? 23) && (0 <=? mi) && (mi <=? 59)
     && (0 <=? ss) && (ss <=? 59)
  then Some ((ymd2ord y m d - 1) * us_per_day + hh * us_per_hour
             + mi * 60 * us_per_second + ss * us_per_second)
  else None.

Definition date_text (t : datetime) : string :=
  let '(y, m, d) := ord2ymd (t / us_per_day + 1) in
  Num.pad 4 y ++ "-" ++ Num.pad 2 m ++ "-" ++ Num.pad 2 d.

Definition time_text (t : datetime) : string :=
  let r := t mod us_per_day in
  Num.pad 2 (r / us_per_hour) ++ ":" ++ Num.pad 2 (r mod us_per_hour / (60 * us_per_second))
  ++ ":" ++ Num.pad 2 (r mod (60 * us_per_second) / us_per_second).

(** [t.isoformat(timespec="seconds")] *)
Definition isoformat_seconds (t : datetime) : string :=
  date_text t ++ "T" ++ time_text t.

(** [str(t)] *)
Definition str (t : datetime) : string :=
  let us := t mod us_per_second in
  date_text t ++ " " ++ time_text t
  ++ (if us =? 0 then "" else "." ++ Num.pad 6 us).

(** [t - timedelta(hours=w)]: [OverflowError] when the [timedelta] exceeds
    999999999 days either way or the result leaves [min_dt .. max_dt]. *)
Definition sub_hours (t : datetime) (w : Z) : result datetime :=
  if Z.abs (w / 24) >? 999999999 then Err OverflowError
  else
    let r := t - w * us_per_hour in
    if (min_dt <=? r) && (r <=? max_dt) then Ok r else Err OverflowError.

(** *** [strptime] for the three formats of [parse_dt] *)

(** One alternative of a directive: a character class per position. *)
Definition alt : Type := list (ascii -> bool).

Fixpoint match_alt (a : alt) (s : string) : option (string * string) :=
  match a with
  | [] => Some (EmptyString, s)
  | p :: a' =>
      match s with
      | String c r =>
          if p c then
            match match_alt a' r with
            | Some (m, t) => Some (String c m, t)
            | None => None
            end
          else None
      | EmptyString => None
      end
  end.

Inductive item : Type :=
| Num (alts : list alt)       (* a numeric directive: alternatives in order *)
| Lit (p : ascii -> bool)     (* a literal character of the format *)
| Spaces.                     (* white space in the format: [\s+] *)

Definition chr (c : ascii) : ascii -> bool := Ascii.eqb c.
Definition rng (lo hi : ascii) : ascii -> bool :=
  fun c => Py.in_range (Py.code lo) (Py.code hi) c.
Definition dig : ascii -> bool := Py.is_digit.

Definition dY : item := Num [[dig; dig; dig; dig]].
Definition dm : item :=
  Num [[chr "1"; rng "0" "2"]; [chr "0"; rng "1" "9"]; [rng "1" "9"]].
Definition dd : item :=
  Num [[chr "3"; rng "0" "1"]; [rng "1" "2"; dig]; [chr "0"; rng "1" "9"];
       [rng "1" "9"]; [chr " "; rng "1" "9"]].
Definition dH : item := Num [[chr "2"; rng "0" "3"]; [rng "0" "1"; dig]; [dig]].
Definition dM : item := Num [[rng "0" "5"; dig]; [dig]].
Definition dS : item := Num [[chr "6"; rng "0" "1"]; [rng "0" "5"; dig]; [dig]].

(** The tails of [s] after one or more white-space characters, the longest
    run first: the order in which a greedy [\s+] gives characters back. *)
Fixpoint after_spaces (s : string) : list string :=
  match s with
  | String c r => if Py.is_space c then after_spaces r ++ [r] else []
  | EmptyString => []
  end.

(** All the ways the items match a prefix of [s], in the order the
    backtracking matcher finds them: the numbers read and the text left. *)
Fixpoint match_items (items : list item) (s : string) : list (list Z * string) :=
  match items with
  | [] => [([], s)]
  | Num alts :: rest =>
      flat_map (fun a =>
        match match_alt a s with
        | Some (m, t) =>
            map (fun '(ns, u) =>
                   (Num.digits_val 0 (Py.lstrip_by Py.is_space m) :: ns, u))
                (match_items rest t)
        | None => []
        end) alts
  | Lit p :: rest =>
      match s with
      | String c r => if p c then match_items rest r else []
      | EmptyString => []
      end
  | Spaces :: rest => flat_map (match_items rest) (after_spaces s)
  end.

(** [strptime]: the first match must use up the whole text. *)
Definition strptime (items : list item) (s : string) : option (list Z) :=
  match match_items items s with
  | (ns, EmptyString) :: _ => Some ns
  | _ => None
  end.

Definition dash : item := Lit (chr "-").
Definition colon : item := Lit (chr ":").
(** The matcher ignores case, so the [T] of the format also reads [t]. *)
Definition tee : item := Lit (fun c => (chr "T" c || chr "t" c)%bool).

Definition fmt_minutes : list item := [dY; dash; dm; dash; dd; Spaces; dH; colon; dM].
Definition fmt_iso : list item :=
  [dY; dash; dm; dash; dd; tee; dH; colon; dM; colon; dS].
Definition fmt_date : list item := [dY; dash; dm; dash; dd].

Definition of_fields (ns : list Z) : option datetime :=
  match ns with
  | [y; m; d] => make y m d 0 0 0
  | [y; m; d; hh; mi] => make y m d hh mi 0
  | [y; m; d; hh; mi; ss] => make y m d hh mi ss
  | _ => None
  end.

(** The loop of [parse_dt] over its three formats: the first that both
    matches and names a valid date-time. *)
Fixpoint first_format (fmts : list (list item)) (s : string) : option datetime :=
  match fmts with
  | [] => None
  | f :: rest =>
      match match strptime f s with
            | Some ns => of_fields ns
            | None => None
            end with
      | Some t => Some t
      | None => first_format rest s
      end
  end.

Definition parse_text (s : string) : option datetime :=
  first_format [fmt_minutes; fmt_iso; fmt_date] s.

End DT.

(** ** Dictionaries with string keys *)

Definition dict (V : Type) : Type := list (string * V).

Fixpoint dict_get {V} (d : dict V) (k : string) : option V :=
  match d with
  | [] => None
  | (k', v) :: r => if String.eqb k k' then Some v else dict_get r k
  end.

(** [d[k] = v]: an existing key keeps its place and takes the new value. *)
Fixpoint dict_set {V} (k : string) (v : V) (d : dict V) : dict V :=
  match d with
  | [] => [(k, v)]
  | (k', v') :: r =>
      if String.eqb k k' then (k', v) :: r else (k', v') :: dict_set k v r
  end.

(** ** The rule DSL: [parse_call] and [parse_iflogic] *)

(** A typed literal of a call: integer, float or string. *)
Inductive value : Type :=
| VInt (z : Z)
| VFloat (f : float)
| VStr (s : string).

Definition nonempty (s : string) : bool :=
  match s with EmptyString => false | _ => true end.

(** The cast of [parse_call]: a text matching [^-?\d+\.\d+$] becomes a
    float, one matching [^-?\d+$] an integer, anything else stays a string.
    (The text comes out of [(.* )], so it holds no newline and [$] means the
    end of the text.)  [int] is taken without a limit on the digits: an
    interpreter that limits the conversion (CPython 3.11 by default, at 4300
    digits) raises [ValueError] on a longer numeral, so the cast is the
    code's on the texts whose [longest_digit_run] is within the limit. *)
Definition literal (v : string) : value :=
  let '(neg, body) :=
    match v with
    | String "-"%char r => (true, r)
    | _ => (false, v)
    end in
  let '(ip, rest) := Py.span Py.is_digit body in
  match ip, rest with
  | EmptyString, _ => VStr v
  | _, EmptyString =>
      let z := Num.digits_val 0 ip in VInt (if neg then - z else z)
  | _, String "."%char fp =>
      if (nonempty fp && Py.sall Py.is_digit fp)%bool
      then VFloat (Num.float_of_ratio neg (Num.digits_val 0 (ip ++ fp))
                     (10 ^ Z.of_nat (String.length fp)))
      else VStr v
  | _, _ => VStr v
  end.

(** The part of [s] before its last occurrence of [c]. *)
Fixpoint before_last (c : ascii) (s : string) : option string :=
  match s with
  | EmptyString => None
  | String d r =>
      match before_last c r with
      | Some p => Some (String d p)
      | None => if Ascii.eqb d c then Some EmptyString else None
      end
  end.

(** [re.match(r"([A-Z_]+)\((.* )\)", s)]: the two groups.  The name is the
    longest run of [[A-Z_]] at the start (a shorter one is never followed by
    an opening parenthesis); [.*] stays on the first line and gives back
    characters up to the last closing parenthesis of that line.  Whatever
    follows that parenthesis is not looked at. *)
Definition match_call (s : string) : option (string * string) :=
  let '(fn, rest) := Py.span Py.is_upper_us s in
  match fn, rest with
  | EmptyString, _ => None
  | _, String "("%char body =>
      let line := fst (Py.span (fun c => negb (Ascii.eqb c Py.nl)) body) in
      match before_last ")"%char line with
      | Some raw => Some (fn, raw)
      | None => None
      end
  | _, _ => None
  end.

(** The lookahead [(?=[a-zA-Z_]+=)]. *)
Definition key_ahead (s : string) : bool :=
  let '(k, rest) := Py.span Py.is_ident s in
  (nonempty k && prefix "=" rest)%bool.

(** [re.split(r",\s*(?=[a-zA-Z_]+=)", raw)]: cut at each comma that is
    followed, after any white space, by a [key=] token; the comma and that
    white space are dropped.  [skip] is set while the white space after such
    a comma is being dropped.  The result is the first piece and the list of
    the following ones. *)
Fixpoint split_args_go (skip : bool) (s : string) : string * list string :=
  match s with
  | EmptyString => (EmptyString, [])
  | String c r =>
      if (skip && Py.is_space c)%bool then split_args_go true r
      else if (Ascii.eqb c ","%char && key_ahead (Py.lstrip_by Py.is_space r))%bool
      then (EmptyString, let (p, ps) := split_args_go true r in p :: ps)
      else let (p, ps) := split_args_go false r in (String c p, ps)
  end.

Definition split_args (raw : string) : list string :=
  let (p, ps) := split_args_go false raw in p :: ps.

(** The body of the [for part in ...] loop of [parse_call], over the
    remaining parts, with the dictionary built so far. *)
Fixpoint parse_args (parts : list string) (args : dict value) : result (dict value) :=
  match parts with
  | [] => Ok args
  | part :: rest =>
      if nonempty (Py.strip part) then
        match Py.split_once "="%char part with
        | None => Err ValueError          (* k, v = [part] does not unpack *)
        | Some (k, v) =>
            parse_args rest
              (dict_set (Py.strip k) (literal (Py.strip_quotes (Py.strip v))) args)
        end
      else parse_args rest args
  end.

Definition parse_call (expr : string) : result (string * dict value) :=
  match match_call (Py.strip expr) with
  | None => Err ValueError                (* Invalid DSL expression *)
  | Some (fn, raw) =>
      rbind (parse_args (split_args raw) []) (fun args => Ok (fn, args))
  end.

(** One match of [\s+AND\s+] at the start of [s]: its length. *)
Definition and_match_len (s : string) : option nat :=
  let '(w1, r1) := Py.span Py.is_space s in
  match w1, r1 with
  | EmptyString, _ => None
  | _, String "A"%char (String "N"%char (String "D"%char r2)) =>
      let '(w2, _) := Py.span Py.is_space r2 in
      match w2 with
      | EmptyString => None
      | _ => Some (String.length w1 + 3 + String.length w2)%nat
      end
  | _, _ => None
  end.

(** [re.split(r"\s+AND\s+", iflogic)]; [skip] counts the characters of the
    current match still to be dropped. *)
Fixpoint split_and_go (skip : nat) (s : string) : string * list string :=
  match s with
  | EmptyString => (EmptyString, [])
  | String c r =>
      match skip with
      | S k => split_and_go k r
      | O =>
          match and_match_len s with
          | Some n => (EmptyString, let (p, ps) := split_and_go (Nat.pred n) r in p :: ps)
          | None => let (p, ps) := split_and_go O r in (String c p, ps)
          end
      end
  end.

Definition split_and (s : string) : list string :=
  let (p, ps) := split_and_go O s in p :: ps.

(** [[parse_call(c) for c in chunks if c]]: the first failing call aborts. *)
Fixpoint parse_chunks (chunks : list string) : result (list (string * dict value)) :=
  match chunks with
  | [] => Ok []
  | c :: rest =>
      if nonempty c then
        rbind (parse_call c) (fun call =>
        rbind (parse_chunks rest) (fun calls => Ok (call :: calls)))
      else parse_chunks rest
  end.

Definition parse_iflogic (iflogic : string) : result (list (string * dict value)) :=
  parse_chunks (map Py.strip (split_and iflogic)).

(** ** The recommendation sanitizer *)

Definition banned : list string :=
  ["disciplinary"; "write-up"; "punish"; "terminate"].

Definition coaching_fallback : string :=
  "Provide coaching and process support to remove the operational barrier.".

Definition sanitize_recommendation (text : string) : string :=
  if existsb (fun b => Py.contains b (Py.lower text)) banned
  then coaching_fallback
  else text.


(** ** Cells, rows and hit keys *)

(** What a table cell (or a JSON field) can hold. *)
Inductive cell : Type :=
| CNone
| CBool (b : bool)
| CInt (z : Z)
| CFloat (f : float)
| CStr (s : string)
| CDate (t : DT.datetime).

(** Equality of cells, used for dictionary and set keys and for [==].  It is
    structural: it agrees with Python on [None], strings, date-times and on
    numbers of one type, and keeps apart numbers of different types (Python
    identifies [1], [1.0] and [True]), the two zeros and nothing else. *)
Definition cell_eqb (a b : cell) : bool :=
  match a, b with
  | CNone, CNone => true
  | CBool x, CBool y => Bool.eqb x y
  | CInt x, CInt y => Z.eqb x y
  | CFloat x, CFloat y => PrimFloat.Leibniz.eqb x y
  | CStr x, CStr y => String.eqb x y
  | CDate x, CDate y => Z.eqb x y
  | _, _ => false
  end.

(** A hit key: a tuple of cells. *)
Definition key : Type := list cell.

Fixpoint key_eqb (a b : key) : bool :=
  match a, b with
  | [], [] => true
  | x :: a', y :: b' => (cell_eqb x y && key_eqb a' b')%bool
  | _, _ => false
  end.

Definition row : Type := dict cell.

(** [r.get(k)] and [r.get(k, d)] *)
Definition get (r : row) (k : string) : cell :=
  match dict_get r k with Some v => v | None => CNone end.

Definition get_or (r : row) (k : string) (d : cell) : cell :=
  match dict_get r k with Some v => v | None => d end.

(** [str(v)] *)
Definition py_str (v : cell) : string :=
  match v with
  | CNone => "None"
  | CBool b => if b then "True" else "False"
  | CInt z => Num.str_of_Z z
  | CFloat f => Num.repr_float f
  | CStr s => s
  | CDate t => DT.str t
  end.

(** [bool(v)] *)
Definition truthy (v : cell) : bool :=
  match v with
  | CNone => false
  | CBool b => b
  | CInt z => negb (z =? 0)
  | CFloat f => negb (is_zero f)
  | CStr s => nonempty s
  | CDate _ => true
  end.

(** [v in (None, empty string)] *)
Definition is_blank (v : cell) : bool :=
  match v with
  | CNone => true
  | CStr EmptyString => true
  | _ => false
  end.

(** Sets of keys as duplicate-free lists. *)
Definition mem {A} (eqb : A -> A -> bool) (x : A) (l : list A) : bool :=
  existsb (eqb x) l.

Fixpoint dedup {A} (eqb : A -> A -> bool) (l : list A) : list A :=
  match l with
  | [] => []
  | x :: r => x :: filter (fun y => negb (eqb x y)) (dedup eqb r)
  end.

(** [set(l)]: the members of the set, each once.  The list lists them in
    one order; the order in which Python iterates a set is the interpreter's
    own (it changes with the hash seed for text), and the one loop over a
    set, [for h in inter], is also modelled with its order left open
    ([rule_run]). *)
Definition set_of (l : list key) : list key := dedup key_eqb l.

(** Dictionaries keyed by any type with a boolean equality. *)
Fixpoint kd_get {K V} (eqb : K -> K -> bool) (d : list (K * V)) (k : K) : option V :=
  match d with
  | [] => None
  | (k', v) :: r => if eqb k k' then Some v else kd_get eqb r k
  end.

(** [d[k] = f(d.get(k))]: in place for a key already there, else at the end. *)
Fixpoint kd_update {K V} (eqb : K -> K -> bool) (k : K) (f : option V -> V)
    (d : list (K * V)) : list (K * V) :=
  match d with
  | [] => [(k, f None)]
  | (k', v) :: r =>
      if eqb k k' then (k', f (Some v)) :: r
      else (k', v) :: kd_update eqb k f r
  end.

(** ** Coercions of the predicates *)

Definition to_float (v : cell) : result float :=
  match v with
  | CBool b => Ok (if b then one else zero)       (* bool is an int *)
  | CInt z => Num.float_of_Z z
  | CFloat f => Ok f
  | _ =>
      if is_blank v then Ok zero
      else
        let txt := Py.strip (py_str v) in
        if prefix "=" txt then Ok zero
        else match Num.float_of_str txt with
             | Some f => Ok f
             | None => Ok zero
             end
  end.

Definition parse_dt (v : cell) : option DT.datetime :=
  match v with
  | CDate t => Some t
  | _ => if truthy v then DT.parse_text (py_str v) else None
  end.

(** [l[start:]] for any integer [start]. *)
Definition slice_from {A} (start : Z) (l : list A) : list A :=
  if start <? 0 then skipn (Z.to_nat (Z.of_nat (List.length l) + start)) l
  else skipn (Z.to_nat start) l.

(** [sorted(l, key=...)], a stable sort: [le x y] holds when the key of [x]
    is not greater than the key of [y]. *)
Fixpoint insert_by {A} (le : A -> A -> bool) (x : A) (l : list A) : list A :=
  match l with
  | [] => [x]
  | y :: r => if le x y then x :: l else y :: insert_by le x r
  end.

Definition sort_by {A} (le : A -> A -> bool) (l : list A) : list A :=
  fold_right (insert_by le) [] l.

(** ** The predicate library *)

(** The inner loop of [consecutive_below] over the window of one group. *)
Fixpoint streak_reaches (threshold : float) (consecutive_hours : Z)
    (streak : Z) (values : list float) : bool :=
  match values with
  | [] => false
  | v :: r =>
      let streak := if PrimFloat.ltb v threshold then streak + 1 else 0 in
      if consecutive_hours <=? streak then true
      else streak_reaches threshold consecutive_hours streak r
  end.

(** The first loop of [consecutive_below]: the metric values of each group,
    groups in order of first appearance. *)
Fixpoint group_values (metric_series : list row) (groupby : list string)
    (metric : string) (grouped : list (key * list float))
    : result (list (key * list float)) :=
  match metric_series with
  | [] => Ok grouped
  | r :: rest =>
      rbind (to_float (get r metric)) (fun v =>
      group_values rest groupby metric
        (kd_update key_eqb (map (get r) groupby)
           (fun o => match o with Some vs => (vs ++ [v])%list | None => [v] end)
           grouped))
  end.

Definition group_hit (threshold : float) (consecutive_hours : Z)
    (values : list float) : bool :=
  streak_reaches threshold consecutive_hours 0
    (slice_from (- (consecutive_hours * 2)) values).

Definition consecutive_below (metric_series : list row) (threshold : float)
    (consecutive_hours : Z) (groupby : list string) (metric : string)
    : result (list key) :=
  rbind (group_values metric_series groupby metric []) (fun grouped =>
  Ok (map fst (filter (fun kv => group_hit threshold consecutive_hours (snd kv))
                 grouped))).

Definition forecast_shortfall (planned : option float) (forecast pct_threshold : float)
    : bool :=
  match planned with
  | None => false                     (* the default, the integer 0 *)
  | Some p =>
      if PrimFloat.leb p zero then false
      else PrimFloat.leb pct_threshold (PrimFloat.div (PrimFloat.sub p forecast) p)
  end.

Definition missing_standard (line sku : cell) (standards : list key) : bool :=
  negb (mem key_eqb [line; sku] standards).

Definition slot_le (a b : option DT.datetime * option DT.datetime) : bool :=
  let start x := match fst x with Some t => t | None => DT.min_dt end in
  start a <=? start b.

Fixpoint overlap_scan (slots : list (option DT.datetime * option DT.datetime)) : bool :=
  match slots with
  | prev :: ((cur :: _) as rest) =>
      match snd prev, fst cur with
      | Some e, Some s => if s <? e then true else overlap_scan rest
      | _, _ => overlap_scan rest
      end
  | _ => false
  end.

Definition schedule_overlap (schedule_rows : list row) (line : cell) : bool :=
  let slots :=
    sort_by slot_le
      (map (fun r => (parse_dt (get r "StartDT"), parse_dt (get r "EndDT")))
         (filter (fun r => cell_eqb (get r "Line") line) schedule_rows)) in
  overlap_scan slots.

(** [sum(l)] of floats: plain addition from the left, starting from zero. *)
Definition fsum (l : list float) : float := fold_left PrimFloat.add l zero.

(** ** The evaluator's effects: the wall clock and exceptions *)

(** A computation that may read the clock and may raise.  The state is the
    number of readings taken so far. *)
Definition M (A : Type) : Type := nat -> result (A * nat).

Definition ret {A} (a : A) : M A := fun n => Ok (a, n).

Definition bind {A B} (m : M A) (k : A -> M B) : M B :=
  fun n => match m n with
           | Ok (a, n') => k a n'
           | Err e => Err e
           end.

Definition lift {A} (r : result A) : M A :=
  fun n => match r with
           | Ok a => Ok (a, n)
           | Err e => Err e
           end.

Notation "x <- m ;; k" := (bind m (fun x => k))
  (at level 61, m at next level, right associativity).

(** The engine output. [impact] is [float(len(entity))], a float holding a
    natural number; the record keeps that number. *)
Record Trigger : Type := mkTrigger {
  rule_id : cell;
  severity : cell;
  trigger : string;
  evidence : string;
  recommendation : string;
  scope : cell;
  affected_entity : string;
  timestamp : string;
  impact : Z
}.

Definition SEVERITY_ORDER : dict Z :=
  [("Urgent", 4); ("Action", 3); ("Watch", 2); ("Info", 1)].

(** [SEVERITY_ORDER.get(s, 0)] *)
Definition severity_rank (s : cell) : Z :=
  match s with
  | CStr name => match dict_get SEVERITY_ORDER name with
                 | Some r => r
                 | None => 0
                 end
  | _ => 0
  end.

(** The sort key of the ranker, and the order of Python tuples on it. *)
Definition rank_key (t : Trigger) : Z * Z * string :=
  (- severity_rank (severity t), - impact t, timestamp t).

Definition rank_le (a b : Trigger) : bool :=
  let '(s1, i1, t1) := rank_key a in
  let '(s2, i2, t2) := rank_key b in
  if s1 =? s2 then
    if i1 =? i2 then String.leb t1 t2 else i1 <? i2
  else s1 <? s2.

(** A literal of a call read as a float, an integer or a string. *)
Definition as_float (v : value) : result float :=
  match v with
  | VInt z => Num.float_of_Z z
  | VFloat f => Ok f
  | VStr s => match Num.float_of_str s with
              | Some f => Ok f
              | None => Err ValueError
              end
  end.

Definition as_int (v : value) : result Z :=
  match v with
  | VInt z => Ok z
  | VFloat f => Num.Z_of_float f
  | VStr s => match Num.int_of_str s with
              | Some z => Ok z
              | None => Err ValueError
              end
  end.

Definition as_str (v : value) : string :=
  match v with
  | VInt z => Num.str_of_Z z
  | VFloat f => Num.repr_float f
  | VStr s => s
  end.

(** [args.get(k, d)] *)
Definition arg (args : dict value) (k : string) (d : value) : value :=
  match dict_get args k with Some v => v | None => d end.

(** The entity label of a hit key before the fallback. *)
Definition entity_of (h : key) : string :=
  Py.join "," (map py_str (filter (fun x => negb (is_blank x)) h)).

(** The intersection of the set [h] with all the sets of [others]. *)
Definition intersection (h : list key) (others : list (list key)) : list key :=
  filter (fun k => forallb (mem key_eqb k) others) h.

(** [inter] for the non-empty [rule_hits = h :: others]: the intersection of
    all of them when [len(rule_hits) > 1], else [set(rule_hits[0])]. *)
Definition inter (h : list key) (others : list (list key)) : list key :=
  match others with
  | [] => set_of h
  | _ => intersection h others
  end.

Definition recognized (fn : string) : bool :=
  mem String.eqb fn
    ["CONSEC_BELOW"; "ROLLING_COUNT"; "MISSING_STANDARD"; "SCHEDULE_OVERLAP";
     "REPEAT_CAUSE"; "FORECAST_SHORTFALL"].

Section Engine.

(** The [n]-th value that [dt.datetime.now()] returns during the run. *)
Variable clock : nat -> DT.datetime.

Definition now : M DT.datetime := fun n => Ok (clock n, S n).

Definition rolling_count (events : list row) (window_hours : Z) (by_ : list string)
    : M (list (key * Z)) :=
  t0 <- now ;;
  cutoff <- lift (DT.sub_hours t0 window_hours) ;;
  ret (fold_left
         (fun counts e =>
            let start := get e "StartDT" in
            match parse_dt (if truthy start then start else get e "HourEndingDT") with
            | Some t =>
                if cutoff <=? t
                then kd_update key_eqb (map (get e) by_)
                       (fun o => match o with Some c => c + 1 | None => 1 end) counts
                else counts
            | None => counts
            end)
         events []).

Definition repeats_same_value (rows : list row) (field : string)
    (min_repeats window_hours : Z) (by_ : list string) : M (list key) :=
  recent <- rolling_count rows window_hours (by_ ++ [field]) ;;
  ret (map fst (filter (fun kc => min_repeats <=? snd kc) recent)).

(** The row collections of one evaluation, and the standards index
    [{(r.get("Line"), r.get("SKU")) for r in standards_rows}]. *)
Variables schedule_rows hourly_rows downtime_rows : list row.
Variable standards : list key.

Definition hits_consec_below (args : dict value) : M (list key) :=
  let group := Py.split "," (as_str (arg args "groupby" (VStr "Line"))) in
  threshold <- lift (as_float (arg args "threshold" (VFloat 0.7))) ;;
  hours <- lift (as_int (arg args "hours" (VInt 2))) ;;
  hits <- lift (consecutive_below hourly_rows threshold hours group
                  (as_str (arg args "metric" (VStr "TargetAttain")))) ;;
  ret (set_of hits).

Definition hits_rolling_count (args : dict value) : M (list key) :=
  let group :=
    filter nonempty
      (Py.split "," (Py.remove_all "={Line}"
                       (as_str (arg args "where" (VStr "Line={Line}"))))) in
  window <- lift (as_int (arg args "window_hours" (VInt 2))) ;;
  counts <- rolling_count downtime_rows window
              (match group with [] => ["Line"] | _ => group end) ;;
  match counts with
  | [] => ret []
  | _ =>
      (* [int(args.get("min", 1))] is evaluated for each item *)
      least <- lift (as_int (arg args "min" (VInt 1))) ;;
      ret (map fst (filter (fun kc => least <=? snd kc) counts))
  end.

Definition hits_missing_standard : list key :=
  set_of
    (map (fun r => [get r "Line"; get r "SKU_Resolved"])
       (filter (fun r => missing_standard (get r "Line") (get r "SKU_Resolved") standards)
          hourly_rows)).

Definition hits_schedule_overlap : list key :=
  let lines := dedup cell_eqb (map (fun r => get r "Line") schedule_rows) in
  map (fun l => [l]) (filter (schedule_overlap schedule_rows) lines).

Definition hits_repeat_cause (args : dict value) : M (list key) :=
  let group := Py.split "," (as_str (arg args "groupby" (VStr "Line,Machine,Cause"))) in
  min_repeats <- lift (as_int (arg args "min_repeats" (VInt 3))) ;;
  window <- lift (as_int (arg args "window_hours" (VInt 12))) ;;
  hits <- repeats_same_value downtime_rows "Cause" min_repeats window (removelast group) ;;
  ret (set_of hits).

(** [by_line]: the actual cases of each line, lines in order of appearance. *)
Fixpoint actuals_by_line (rows : list row) (by_line : list (cell * list float))
    : result (list (cell * list float)) :=
  match rows with
  | [] => Ok by_line
  | r :: rest =>
      rbind (to_float (get r "ActualCases")) (fun v =>
      actuals_by_line rest
        (kd_update cell_eqb (get r "Line")
           (fun o => match o with Some vs => (vs ++ [v])%list | None => [v] end)
           by_line))
  end.

(** [planned_by_line]: the planned cases of each line, summed. *)
Fixpoint planned_by_line (rows : list row) (planned : list (cell * float))
    : result (list (cell * float)) :=
  match rows with
  | [] => Ok planned
  | r :: rest =>
      rbind (to_float (get r "PlannedCases")) (fun v =>
      planned_by_line rest
        (kd_update cell_eqb (get r "Line")
           (fun o => PrimFloat.add (match o with Some p => p | None => zero end) v)
           planned))
  end.

Definition line_forecast (vals : list float) : float :=
  let n := Z.max (Z.min 3 (Z.of_nat (List.length vals))) 1 in
  let rolling := PrimFloat.div (fsum (slice_from (-3) vals)) (PrimFloat.of_uint63 (Uint63.of_Z n)) in
  PrimFloat.add (fsum vals) (PrimFloat.mul rolling 2%float).

Definition hits_forecast_shortfall (args : dict value) : M (list key) :=
  by_line <- lift (actuals_by_line hourly_rows []) ;;
  planned <- lift (planned_by_line schedule_rows []) ;;
  match by_line with
  | [] => ret []
  | _ =>
      (* [float(args.get("pct", 0.1))] is evaluated for each line *)
      pct <- lift (as_float (arg args "pct" (VFloat 0.1))) ;;
      ret (map (fun lv => [fst lv])
             (filter (fun lv => forecast_shortfall (kd_get cell_eqb planned (fst lv))
                                  (line_forecast (snd lv)) pct)
                by_line))
  end.

(** One pass of the [for fn, args in parsed] loop: the hit-set the call
    appends to [rule_hits], or nothing for a name outside the [if] chain. *)
Definition call_hits (call : string * dict value) : M (option (list key)) :=
  let '(fn, args) := call in
  if String.eqb fn "CONSEC_BELOW" then h <- hits_consec_below args ;; ret (Some h)
  else if String.eqb fn "ROLLING_COUNT" then h <- hits_rolling_count args ;; ret (Some h)
  else if String.eqb fn "MISSING_STANDARD" then ret (Some hits_missing_standard)
  else if String.eqb fn "SCHEDULE_OVERLAP" then ret (Some hits_schedule_overlap)
  else if String.eqb fn "REPEAT_CAUSE" then h <- hits_repeat_cause args ;; ret (Some h)
  else if String.eqb fn "FORECAST_SHORTFALL" then h <- hits_forecast_shortfall args ;; ret (Some h)
  else ret None.

(** [rule_hits] after the loop over the parsed calls. *)
Fixpoint collect_hits (parsed : list (string * dict value)) : M (list (list key)) :=
  match parsed with
  | [] => ret []
  | call :: rest =>
      o <- call_hits call ;;
      hs <- collect_hits rest ;;
      ret (match o with Some h => h :: hs | None => hs end)
  end.

(** The body of [for h in inter]: one clock reading, one Trigger. *)
Definition emit (rule : row) (h : key) : M Trigger :=
  let entity := entity_of h in
  t <- now ;;
  ret {| rule_id := get_or rule "RuleID" (CStr "");
         severity := get_or rule "Severity" (CStr "Info");
         trigger := py_str (get_or rule "Description" (CStr ""));
         evidence := py_str (get_or rule "IfLogic" (CStr ""));
         recommendation :=
           sanitize_recommendation (py_str (get_or rule "ThenRecommendation" (CStr "")));
         scope := get_or rule "Scope" (CStr "Line");
         affected_entity := if nonempty entity then entity else "Unknown";
         timestamp := DT.isoformat_seconds t;
         impact := Z.of_nat (String.length entity) |}.

Fixpoint emit_all (rule : row) (hs : list key) : M (list Trigger) :=
  match hs with
  | [] => ret []
  | h :: rest =>
      t <- emit rule h ;;
      ts <- emit_all rule rest ;;
      ret (t :: ts)
  end.

Definition enabled (rule : row) : bool :=
  String.eqb (Py.upper (py_str (get_or rule "Enabled" (CStr "")))) "TRUE".

(** The final hit-set of a rule from its [rule_hits]; empty when there are
    none (the loop then goes on to the next rule). *)
Definition final_hits (rule_hits : list (list key)) : list key :=
  match rule_hits with
  | [] => []
  | h :: others => inter h others
  end.

(** The body of [for rule in rules]: the Triggers one rule appends. *)
Definition rule_triggers (rule : row) : M (list Trigger) :=
  if enabled rule then
    parsed <- lift (parse_iflogic (py_str (get_or rule "IfLogic" (CStr "")))) ;;
    rule_hits <- collect_hits parsed ;;
    match rule_hits with
    | [] => ret []
    | _ => emit_all rule (final_hits rule_hits)
    end
  else ret [].

Fixpoint all_triggers (rules : list row) : M (list Trigger) :=
  match rules with
  | [] => ret []
  | rule :: rest =>
      ts <- rule_triggers rule ;;
      more <- all_triggers rest ;;
      ret (ts ++ more)%list
  end.

End Engine.

(** The ranker: [triggers.sort(key=...)]. *)
Definition rank (triggers : list Trigger) : list Trigger :=
  sort_by rank_le triggers.

Definition standards_index (standards_rows : list row) : list key :=
  set_of (map (fun r => [get r "Line"; get r "SKU"]) standards_rows).

Definition evaluate_rules (clock : nat -> DT.datetime)
    (rules schedule_rows hourly_rows downtime_rows standards_rows : list row)
    : result (list Trigger) :=
  match all_triggers clock schedule_rows hourly_rows downtime_rows
          (standards_index standards_rows) rules O with
  | Ok (triggers, _) => Ok (rank triggers)
  | Err e => Err e
  end.

(** ** The rule linter *)

Definition REQ_RULE_COLS : list string :=
  ["RuleID"; "Enabled"; "Severity"; "Scope"; "Description"; "IfLogic";
   "ThenRecommendation"; "ThenEscalation"; "Thresholds"; "WindowHours";
   "ConsecutiveHours"; "AppliesToLine"; "AppliesToMachine"; "AppliesToSKU";
   "Version"; "LastEditedBy"; "LastEditedDT"].

(** The scopes [lint_rules] accepts. *)
Definition SCOPES : list string := ["Line"; "Machine"; "Operator"; "Shift"].

(** [str(exc)] of the [ValueError] of [k, v = part.split("=", 1)] on a part
    without [=]. *)
Definition unpack_message : string :=
  "not enough values to unpack (expected 2, got 1)".

(** The text of the exception that leaves the loop of [parse_call], if one
    does: the loop stops at the first part that is not blank and holds no
    [=].  (As [literal], this leaves out the error of [int] on a numeral of
    more than 4300 digits.) *)
Fixpoint parse_args_message (parts : list string) : option string :=
  match parts with
  | [] => None
  | part :: rest =>
      if nonempty (Py.strip part) then
        match Py.split_once "="%char part with
        | None => Some unpack_message
        | Some _ => parse_args_message rest
        end
      else parse_args_message rest
  end.

(** [str(exc)] for the exception [parse_call(expr)] raises, if it raises. *)
Definition parse_call_message (expr : string) : option string :=
  match match_call (Py.strip expr) with
  | None => Some ("Invalid DSL expression: " ++ expr)
  | Some (_, raw) => parse_args_message (split_args raw)
  end.

Fixpoint parse_chunks_message (chunks : list string) : option string :=
  match chunks with
  | [] => None
  | c :: rest =>
      if nonempty c then
        match parse_call_message c with
        | Some m => Some m
        | None => parse_chunks_message rest
        end
      else parse_chunks_message rest
  end.

(** [str(exc)] for the exception [parse_iflogic(iflogic)] raises, if it
    raises: that of its first failing call. *)
Definition parse_iflogic_message (iflogic : string) : option string :=
  parse_chunks_message (map Py.strip (split_and iflogic)).

(** [v in names], for a dictionary or a set whose keys are strings. *)
Definition among (v : cell) (names : list string) : bool :=
  match v with
  | CStr s => existsb (String.eqb s) names
  | _ => false
  end.

(** [repr] of a list of column names; a name holds letters only, and is
    written between single quotes as it is. *)
Definition repr_names (l : list string) : string :=
  "[" ++ Py.join ", " (map (fun c => "'" ++ c ++ "'") l) ++ "]".

(** [[c for c in REQ_RULE_COLS if c not in r or r[c] in (None, empty)]] *)
Definition missing_fields (r : row) : list string :=
  filter (fun c => match dict_get r c with
                   | None => true
                   | Some v => is_blank v
                   end) REQ_RULE_COLS.

Definition duplicate_issue : string := "Duplicate RuleID values detected".

(** The issues the body of the loop of [lint_rules] appends for row [i]. *)
Definition row_issues (i : Z) (r : row) : list string :=
  let row_i := "Row " ++ Num.str_of_Z i in
  let missing := missing_fields r in
  let fields_issue := row_i ++ ": missing required fields " ++ repr_names missing in
  let severity_issue := row_i ++ ": invalid Severity" in
  let scope_issue := row_i ++ ": invalid Scope" in
  let parse_issue m := row_i ++ ": DSL parse error " ++ m in
  ((if (match missing with [] => false | _ => true end && enabled r)%bool
    then [fields_issue] else []) ++
   (if among (get r "Severity") (map fst SEVERITY_ORDER)
    then [] else [severity_issue]) ++
   (if among (get r "Scope") SCOPES then [] else [scope_issue]) ++
   (match parse_iflogic_message (py_str (get_or r "IfLogic" (CStr ""))) with
    | Some m => [parse_issue m]
    | None => []
    end))%list.

(** [for i, r in enumerate(rules, start=i)] *)
Fixpoint lint_rows (i : Z) (rules : list row) : list string :=
  match rules with
  | [] => []
  | r :: rest => (row_issues i r ++ lint_rows (i + 1) rest)%list
  end.

(** [lint_rules]; the rule identifiers are compared as cells are
    ([cell_eqb]). *)
Definition lint_rules (rules : list row) : list string :=
  let ids := map (fun r => get r "RuleID") rules in
  ((if Nat.eqb (List.length (dedup cell_eqb ids)) (List.length ids)
    then [] else [duplicate_issue]) ++
   lint_rows 2 rules)%list.

(** ** Schedule coverage of an hour *)

Fixpoint missing_schedule_for_hourly (schedule_rows : list row) (line : cell)
    (hour : DT.datetime) : bool :=
  match schedule_rows with
  | [] => true
  | r :: rest =>
      if negb (cell_eqb (get r "Line") line)
      then missing_schedule_for_hourly rest line hour
      else
        match parse_dt (get r "StartDT"), parse_dt (get r "EndDT") with
        | Some st, Some en =>
            if ((st <=? hour) && (hour <=? en))%bool then false
            else missing_schedule_for_hourly rest line hour
        | _, _ => missing_schedule_for_hourly rest line hour
        end
  end.

(** * Specification-side definitions and sample data *)

(** ** The call grammar *)

(** The text starts, once stripped, with [NAME(...)]: a non-empty name of
    upper-case letters and underscores, an opening parenthesis, and a closing
    one later on the same line. *)
Definition call_form (expr : string) : Prop :=
  exists name raw rest,
    Py.strip expr = name ++ "(" ++ raw ++ ")" ++ rest /\
    name <> "" /\ Py.sall Py.is_upper_us name = true /\
    Py.smem Py.nl raw = false.

(** What [.] matches: any character but the newline. *)
Definition notnl (c : ascii) : bool := negb (Ascii.eqb c Py.nl).

(** An argument that is not blank and holds no [=]. *)
Definition bad_part (part : string) : bool :=
  (nonempty (Py.strip part) && negb (Py.smem "=" part))%bool.

(** ** [CONSEC_BELOW] in the words of the specification *)

Definition below (threshold v : float) : bool := PrimFloat.ltb v threshold.

(** The number of samples at the front of [l] that are below the threshold. *)
Fixpoint leading_run (threshold : float) (l : list float) : nat :=
  match l with
  | [] => O
  | v :: r => if below threshold v then S (leading_run threshold r) else O
  end.

(** The trailing run of [l]: the consecutive samples below the threshold at
    its end. *)
Definition trailing_run (threshold : float) (l : list float) : nat :=
  leading_run threshold (rev l).

(** The [n] most recent samples, in arrival order. *)
Definition most_recent {A} (n : nat) (l : list A) : list A :=
  skipn (List.length l - n) l.

(** Scanning the most recent [2 * hours] samples in arrival order, the
    trailing run reaches the length [hours] at some point. *)
Definition run_reaches (threshold : float) (hours : Z) (values : list float) : bool :=
  let window := most_recent (Z.to_nat (2 * hours)) values in
  existsb (fun n => hours <=? Z.of_nat (trailing_run threshold (firstn n window)))
    (seq 0 (S (List.length window))).

(** The value of a metric cell in the words of the specification: the
    number the cell holds (an integer as the nearest float, a truth value as
    1.0 or 0.0); the number its text reads as, for a cell that holds
    anything else; and 0.0 for an absent cell, for a text that does not read
    as a number and for a text with a leading [=]. *)
Definition cell_value (v : cell) : float :=
  match v with
  | CBool b => if b then one else zero
  | CInt z => SF2Prim (binary_normalize prec emax z 0 false)
  | CFloat f => f
  | CNone => zero
  | _ =>
      let txt := Py.strip (py_str v) in
      if prefix "=" txt then zero
      else match Num.float_of_str txt with
           | Some f => f
           | None => zero
           end
  end.

(** The metric value of a sample, and the samples of the group of [k]. *)
Definition metric_value (metric : string) (r : row) : float :=
  cell_value (get r metric).

Definition samples_of (rows : list row) (groupby : list string) (metric : string)
    (k : key) : list float :=
  map (metric_value metric)
    (filter (fun r => key_eqb (map (get r) groupby) k) rows).

(** The update of [streak] at one sample of the loop. *)
Definition step (threshold : float) (streak : Z) (v : float) : Z :=
  if PrimFloat.ltb v threshold then streak + 1 else 0.

(** The groups built by the first loop: each key once, with the samples of
    its group in arrival order after those it already had. *)
Definition values_of (grouped : list (key * list float)) (k : key) : list float :=
  match kd_get key_eqb grouped k with Some vs => vs | None => [] end.

(** Two elements tie in a sort when each is below the other. *)
Definition tie {A} (le : A -> A -> bool) (x y : A) : bool :=
  (le x y && le y x)%bool.

(** ** The Triggers of a rule *)

(** The label of a hit key: its populated components joined by commas, or
    the fallback. *)
Definition label (h : key) : string :=
  if nonempty (entity_of h) then entity_of h else "Unknown".

(** The Trigger a rule emits for the hit key [h] when the clock shows [t]. *)
Definition trigger_of (rule : row) (h : key) (t : DT.datetime) : Trigger :=
  {| rule_id := get_or rule "RuleID" (CStr "");
     severity := get_or rule "Severity" (CStr "Info");
     trigger := py_str (get_or rule "Description" (CStr ""));
     evidence := py_str (get_or rule "IfLogic" (CStr ""));
     recommendation :=
       sanitize_recommendation (py_str (get_or rule "ThenRecommendation" (CStr "")));
     scope := get_or rule "Scope" (CStr "Line");
     affected_entity := label h;
     timestamp := DT.isoformat_seconds t;
     impact := Z.of_nat (String.length (entity_of h)) |}.

(** The Triggers of a rule for the keys [keys], the first one stamped with
    the [n]-th clock reading, the next with the one after, and so on. *)
Fixpoint stamp (clock : nat -> DT.datetime) (rule : row) (n : nat) (keys : list key)
    : list Trigger :=
  match keys with
  | [] => []
  | h :: rest => trigger_of rule h (clock n) :: stamp clock rule (S n) rest
  end.

(** The calls [parsed], evaluated one after the other from the clock state
    [n], yield the hit-sets [hs], one per call, and leave the state [n']. *)
Inductive evaluates_to (ch : string * dict value -> M (option (list key)))
  : list (string * dict value) -> nat -> list (list key) -> nat -> Prop :=
| ev_nil n : evaluates_to ch [] n [] n
| ev_cons call rest n h n1 hs n2 :
    ch call n = Ok (Some h, n1) ->
    evaluates_to ch rest n1 hs n2 ->
    evaluates_to ch (call :: rest) n (h :: hs) n2.

(** The number of populated components of a hit key. *)
Definition populated (h : key) : Z :=
  Z.of_nat (List.length (filter (fun x => negb (is_blank x)) h)).

(** ** Sample data *)

(** An Hourly Sample of a line with its target attainment. *)
Definition hourly_sample (line : string) (v : float) : row :=
  [("Line", CStr line); ("TargetAttain", CFloat v)].

(** A Trigger of the given severity; the other fields are fixed. *)
Definition sample_trigger (sev : string) : Trigger :=
  mkTrigger (CStr "R") (CStr sev) "" "" "" (CStr "Line") "Line 1"
    "2024-01-05T10:00:00" 6.

(** 2024-01-05T10:00:00, and a clock that advances one second per
    reading. *)
Definition ten_o_clock : DT.datetime := 63840045600000000.

Definition ticking_clock (n : nat) : DT.datetime :=
  ten_o_clock + Z.of_nat n * DT.us_per_second.

Definition frozen_clock (n : nat) : DT.datetime := ten_o_clock.

Definition sample_rule (id severity iflogic : string) : row :=
  [("RuleID", CStr id); ("Enabled", CStr "TRUE"); ("Severity", CStr severity);
   ("Scope", CStr "Line"); ("Description", CStr "Sustained underperformance");
   ("IfLogic", CStr iflogic); ("ThenRecommendation", CStr "Run rapid loss review")].

Definition two_lines_hourly : list row :=
  [hourly_sample "Line 1" 0.6; hourly_sample "Line 2" 0.5;
   hourly_sample "Line 1" 0.6; hourly_sample "Line 2" 0.5]%float.

Definition line1_hourly : list row :=
  [hourly_sample "Line 1" 0.6; hourly_sample "Line 1" 0.6]%float.

Definition overlapping_schedule : list row :=
  [[("Line", CStr "Line 1"); ("StartDT", CStr "2024-01-05 06:00");
    ("EndDT", CStr "2024-01-05 10:00")];
   [("Line", CStr "Line 1"); ("StartDT", CStr "2024-01-05 09:00");
    ("EndDT", CStr "2024-01-05 13:00")]].

Definition consec_rule : row :=
  sample_rule "R1" "Action" "CONSEC_BELOW(metric=TargetAttain, threshold=0.70, hours=2, groupby=Line)".

Definition consec_and_overlap_rule : row :=
  sample_rule "R3" "Action" "CONSEC_BELOW(threshold=0.70, hours=2) AND SCHEDULE_OVERLAP()".

Definition malformed_rule : row :=
  sample_rule "R_BAD" "Watch" "consec_below(hours=2)".

Definition unknown_calls_rule : row :=
  sample_rule "R_X" "Watch" "FOO() AND BAR(x=1)".

Definition stops_rule : row :=
  sample_rule "R4" "Watch" "ROLLING_COUNT(window_hours=2, min=1)".

Definition one_stop : list row :=
  [[("Line", CStr "Line 1"); ("StartDT", CDate (ten_o_clock - DT.us_per_hour))]].

Definition a_day_later (n : nat) : DT.datetime := ten_o_clock + DT.us_per_day.

(** A computation only advances the count of clock readings. *)
Definition grows {A} (m : M A) : Prop :=
  forall n a n', m n = Ok (a, n') -> (n <= n')%nat.

(** ** Runs of the evaluator, the order of a set being left open *)

(** A Trigger without its timestamp. *)
Definition untimed (t : Trigger) : Trigger :=
  {| rule_id := rule_id t; severity := severity t; trigger := trigger t;
     evidence := evidence t; recommendation := recommendation t; scope := scope t;
     affected_entity := affected_entity t; timestamp := ""; impact := impact t |}.

(** The order of two sort keys of the ranker. *)
Definition rank_key_le (x y : Z * Z * string) : bool :=
  let '(s1, i1, t1) := x in
  let '(s2, i2, t2) := y in
  if s1 =? s2 then
    if i1 =? i2 then String.leb t1 t2 else i1 <? i2
  else s1 <? s2.

Section Runs.

Variable clock : nat -> DT.datetime.
Variables schedule_rows hourly_rows downtime_rows : list row.
Variable standards : list key.

(** One pass of the body of [for rule in rules], from the clock state [n]:
    the Triggers appended and the clock state left.  [for h in inter]
    iterates a set, in an order that Python leaves to the interpreter: the
    keys are taken in any order [keys]. *)
Inductive rule_run : row -> nat -> list Trigger -> nat -> Prop :=
| run_disabled rule n :
    enabled rule = false ->
    rule_run rule n [] n
| run_enabled rule n parsed hs n0 keys :
    enabled rule = true ->
    parse_iflogic (py_str (get_or rule "IfLogic" (CStr ""))) = Ok parsed ->
    collect_hits clock schedule_rows hourly_rows downtime_rows standards parsed n
      = Ok (hs, n0) ->
    Permutation keys (final_hits hs) ->
    rule_run rule n (stamp clock rule n0 keys) (n0 + List.length keys)%nat.

(** The loop over the rules. *)
Inductive table_run : list row -> nat -> list Trigger -> nat -> Prop :=
| run_nil n : table_run [] n [] n
| run_cons rule rest n ts n1 more n2 :
    rule_run rule n ts n1 ->
    table_run rest n1 more n2 ->
    table_run (rule :: rest) n (ts ++ more)%list n2.

End Runs.

(** [ts] is a result that a run of [evaluate_rules] can return, having read
    the clock [readings] times. *)
Definition possible_result (clock : nat -> DT.datetime)
    (rules schedule_rows hourly_rows downtime_rows standards_rows : list row)
    (ts : list Trigger) (readings : nat) : Prop :=
  exists emitted,
    table_run clock schedule_rows hourly_rows downtime_rows
      (standards_index standards_rows) rules O emitted readings /\
    ts = rank emitted.

(** ** Cells on which the model's equality is Python's *)

(** A cell that is text or absent.  Python's [==], [dict] and [set] identify
    [True], [1] and [1.0], which [cell_eqb] keeps apart; on cells that are
    text or absent the two agree. *)
Definition text_cell (v : cell) : bool :=
  match v with
  | CNone | CStr _ => true
  | _ => false
  end.

Definition text_key (k : key) : bool := forallb text_cell k.

Definition text_keys (h : list key) : bool := forallb text_key h.

(** The columns [cols] of the rows hold text or nothing. *)
Definition text_columns (cols : list string) (rows : list row) : bool :=
  forallb (fun r => forallb (fun c => text_cell (get r c)) cols) rows.

(** The longest run of consecutive digits of a text.  [int] of a numeral of
    more than 4300 digits raises [ValueError] in an interpreter that limits
    the conversion (CPython 3.11 by default); [literal] has no such limit,
    and agrees with the code on the texts without such a run. *)
Fixpoint digit_run (cur best : nat) (s : string) : nat :=
  match s with
  | EmptyString => Nat.max cur best
  | String c r =>
      if Py.is_digit c then digit_run (S cur) best r
      else digit_run O (Nat.max cur best) r
  end.

Definition longest_digit_run (s : string) : nat := digit_run O O s.

Definition int_max_str_digits : nat := 4300.

(** The texts among the arguments of a call hold no numeral beyond that
    limit, so that [int] of an argument raises in the code exactly when
    [as_int] gives an error. *)
Definition args_within_limit (args : dict value) : bool :=
  forallb (fun kv => match snd kv with
                     | VStr s => Nat.leb (longest_digit_run s) int_max_str_digits
                     | _ => true
                     end) args.

(** ** Further definitions *)

(** A text mentions a denylisted term, whatever the case of its letters. *)
Definition mentions_banned (text : string) : bool :=
  existsb (fun b => Py.contains b (Py.lower text)) banned.

(** A rule table of rules that are all switched off, one of them with a
    condition that does not parse. *)
Definition disabled_rules : list row :=
  [[("RuleID", CStr "R_OFF"); ("Enabled", CStr "FALSE"); ("IfLogic", CStr "not a call")];
   [("RuleID", CStr "R_NONE"); ("Enabled", CNone); ("IfLogic", CStr "SCHEDULE_OVERLAP()")]].

(** The time of an event as [rolling_count] reads it: its [StartDT], or its
    [HourEndingDT] when that is empty. *)
Definition event_time (e : row) : option DT.datetime :=
  let start := get e "StartDT" in
  parse_dt (if truthy start then start else get e "HourEndingDT").

(** The event has a time, at or after [cutoff]. *)
Definition in_window (cutoff : DT.datetime) (e : row) : bool :=
  match event_time e with
  | Some t => cutoff <=? t
  | None => false
  end.

(** The number of events within the window whose key is [k]. *)
Definition window_count (cutoff : DT.datetime) (by_ : list string) (events : list row)
    (k : key) : Z :=
  Z.of_nat (List.length
              (filter (fun e => (in_window cutoff e && key_eqb (map (get e) by_) k)%bool)
                 events)).

(** A count as a dictionary holds it: no entry for zero. *)
Definition count_entry (c : Z) : option Z := if c =? 0 then None else Some c.

(** The step of the loop of [rolling_count]. *)
Definition count_step (cutoff : DT.datetime) (by_ : list string)
    (counts : list (key * Z)) (e : row) : list (key * Z) :=
  let start := get e "StartDT" in
  match parse_dt (if truthy start then start else get e "HourEndingDT") with
  | Some t =>
      if cutoff <=? t
      then kd_update key_eqb (map (get e) by_)
             (fun o => match o with Some c => c + 1 | None => 1 end) counts
      else counts
  | None => counts
  end.

(** A schedule slot as [schedule_overlap] reads it: start and end, each
    absent when the cell does not parse. *)
Definition slot : Type := (option DT.datetime * option DT.datetime)%type.

(** The slots of a line, in the order of the rows. *)
Definition line_slots (schedule_rows : list row) (line : cell) : list slot :=
  map (fun r => (parse_dt (get r "StartDT"), parse_dt (get r "EndDT")))
    (filter (fun r => cell_eqb (get r "Line") line) schedule_rows).

(** A slot with both times, the start strictly before the end. *)
Definition proper_slot (x : slot) : Prop :=
  match x with
  | (Some s, Some e) => s < e
  | _ => False
  end.

(** [y] starts while [x] is running, and not before [x] starts. *)
Definition overlaps (x y : slot) : Prop :=
  match x, y with
  | (Some s1, Some e1), (Some s2, _) => s1 <= s2 /\ s2 < e1
  | _, _ => False
  end.

Definition sorted_slots (l : list slot) : Prop :=
  StronglySorted (fun a b => slot_le a b = true) l.

(** A cell that is not an integer. *)
Definition not_an_int (v : cell) : bool :=
  match v with CInt _ => false | _ => true end.

(** ** The linter and the counting predicates *)

(** Every required column of the rule holds something. *)
Definition complete (r : row) : Prop :=
  forall c, In c REQ_RULE_COLS ->
  exists v, dict_get r c = Some v /\ is_blank v = false.

(** The cell is one of the names. *)
Definition names (v : cell) (l : list string) : Prop :=
  exists s, v = CStr s /\ In s l.

(** The rule identifiers are text or absent, as a RuleID column holds them;
    on such cells [cell_eqb] is the equality of Python. *)
Definition text_ids (rules : list row) : bool :=
  forallb (fun r => match get r "RuleID" with
                    | CNone | CStr _ => true
                    | _ => false
                    end) rules.

(** The condition text of a rule, as the linter and the evaluator read it. *)
Definition condition (r : row) : string := py_str (get_or r "IfLogic" (CStr "")).

(** The group of [ROLLING_COUNT]: the fields named by [where]. *)
Definition rolling_group (args : dict value) : list string :=
  let group :=
    filter nonempty
      (Py.split "," (Py.remove_all "={Line}"
                       (as_str (arg args "where" (VStr "Line={Line}"))))) in
  match group with [] => ["Line"] | _ => group end.

Definition lint_sample : list row := [consec_rule; malformed_rule].

Definition stop_at (line : string) (t : DT.datetime) : row :=
  [("Line", CStr line); ("StartDT", CDate t)].

(** * Properties *)

(** ** Strings *)

Lemma append_assoc (a b c : string) : (a ++ b) ++ c = a ++ (b ++ c).
Proof. induction a; simpl; congruence. Qed.

Lemma sall_app p a b : Py.sall p (a ++ b) = (Py.sall p a && Py.sall p b)%bool.
Proof. induction a; simpl; [reflexivity|]. rewrite IHa, andb_assoc. reflexivity. Qed.

Lemma smem_app c a b : Py.smem c (a ++ b) = (Py.smem c a || Py.smem c b)%bool.
Proof. induction a; simpl; [reflexivity|]. rewrite IHa, orb_assoc. reflexivity. Qed.

(** [span] cuts [s] in two: a prefix inside the class, and a rest that does
    not start inside it. *)
Lemma span_spec p s a b :
  Py.span p s = (a, b) ->
  s = a ++ b /\ Py.sall p a = true /\
  match b with String c _ => p c = false | EmptyString => True end.
Proof.
  revert a b. induction s as [|c s IH]; simpl; intros a b H.
  - inversion H; subst. auto.
  - destruct (p c) eqn:E.
    + destruct (Py.span p s) as [x y]. inversion H; subst.
      destruct (IH x b eq_refl) as (-> & Hx & Hb). simpl. rewrite E, Hx. auto.
    + inversion H; subst. simpl. auto.
Qed.

Lemma span_app p a b :
  Py.sall p a = true ->
  Py.span p (a ++ b) = (a ++ fst (Py.span p b), snd (Py.span p b)).
Proof.
  induction a as [|c a IH]; simpl; intros H.
  - destruct (Py.span p b); reflexivity.
  - apply andb_prop in H as [Hc Ha]. rewrite Hc, (IH Ha). reflexivity.
Qed.

Lemma before_last_none c s : before_last c s = None <-> Py.smem c s = false.
Proof.
  induction s as [|d s IH]; simpl; [tauto|].
  destruct (before_last c s) eqn:E.
  - split; [discriminate|]. intros H. apply orb_false_elim in H as [_ H].
    apply IH in H. discriminate.
  - assert (Hs : Py.smem c s = false) by (apply IH; reflexivity).
    rewrite Hs, orb_false_r, (Ascii.eqb_sym c d).
    destruct (Ascii.eqb d c); split; congruence.
Qed.

Lemma before_last_some c s p :
  before_last c s = Some p -> exists rest, s = p ++ String c rest.
Proof.
  revert p. induction s as [|d s IH]; simpl; intros p H; [discriminate|].
  destruct (before_last c s) eqn:E.
  - inversion H; subst. destruct (IH _ eq_refl) as [rest ->]. exists rest. reflexivity.
  - destruct (Ascii.eqb d c) eqn:Edc; [|discriminate].
    inversion H; subst. apply Ascii.eqb_eq in Edc. subst. exists s. reflexivity.
Qed.

(** ** The call grammar *)

Lemma sall_notnl s : Py.sall notnl s = negb (Py.smem Py.nl s).
Proof.
  induction s as [|c s IH]; simpl; [reflexivity|].
  rewrite IH, negb_orb. unfold notnl. rewrite (Ascii.eqb_sym c). reflexivity.
Qed.

Ltac absurd_none :=
  let H := fresh in intros H; exfalso; apply H; reflexivity.

Lemma match_call_form s :
  match_call s <> None <->
  exists name raw rest,
    s = name ++ "(" ++ raw ++ ")" ++ rest /\
    name <> "" /\ Py.sall Py.is_upper_us name = true /\
    Py.smem Py.nl raw = false.
Proof.
  unfold match_call. split.
  - destruct (Py.span Py.is_upper_us s) as [fn rest] eqn:E.
    apply span_spec in E as (-> & Hfn & _).
    destruct fn as [|f fn]; [absurd_none|].
    destruct rest as [|c body]; [absurd_none|].
    destruct c as [[] [] [] [] [] [] [] []]; try absurd_none.
    change (fun c => negb (Ascii.eqb c Py.nl)) with notnl.
    destruct (Py.span notnl body) as [line tail] eqn:El.
    apply span_spec in El as (-> & Hline & _). simpl fst.
    destruct (before_last ")" line) as [raw|] eqn:Eb; [|absurd_none].
    intros _. apply before_last_some in Eb as [r ->].
    exists (String f fn), raw, (r ++ tail). repeat split.
    + simpl. rewrite !append_assoc. reflexivity.
    + discriminate.
    + exact Hfn.
    + rewrite sall_app in Hline. apply andb_prop in Hline as [Hraw _].
      rewrite sall_notnl in Hraw. destruct (Py.smem Py.nl raw); [discriminate|reflexivity].
  - intros (name & raw & rest & -> & Hne & Hname & Hraw).
    rewrite (span_app _ _ _ Hname). simpl.
    destruct name as [|f name]; [congruence|]. simpl.
    change (fun c => negb (Ascii.eqb c Py.nl)) with notnl.
    assert (Hr : Py.sall notnl raw = true) by (rewrite sall_notnl, Hraw; reflexivity).
    rewrite (span_app _ _ _ Hr). simpl.
    destruct (Py.span notnl rest) as [x y]. simpl.
    destruct (before_last ")" (raw ++ String ")" x)) eqn:Eb; [congruence|].
    apply before_last_none in Eb. rewrite smem_app in Eb. simpl in Eb.
    rewrite orb_true_r in Eb. discriminate.
Qed.

Lemma split_once_none c s : Py.split_once c s = None <-> Py.smem c s = false.
Proof.
  induction s as [|d s IH]; simpl; [tauto|].
  rewrite (Ascii.eqb_sym c d).
  destruct (Ascii.eqb d c); simpl; [split; discriminate|].
  destruct (Py.split_once c s) as [[a b]|].
  - split; [discriminate|]. intros H. apply IH in H. discriminate.
  - split; [|reflexivity]. intros _. apply IH. reflexivity.
Qed.

Lemma parse_args_outcome parts : forall args,
  match parse_args parts args with
  | Ok _ => existsb bad_part parts = false
  | Err e => e = ValueError /\ existsb bad_part parts = true
  end.
Proof.
  induction parts as [|part rest IH]; simpl; intros args; [reflexivity|].
  unfold bad_part at 1 3.
  destruct (nonempty (Py.strip part)); simpl.
  - destruct (Py.split_once "=" part) as [[k v]|] eqn:E.
    + assert (Hm : Py.smem "=" part = true).
      { destruct (Py.smem "=" part) eqn:Em; [reflexivity|].
        apply split_once_none in Em. congruence. }
      rewrite Hm. simpl. apply IH.
    + apply split_once_none in E. rewrite E. simpl. auto.
  - apply IH.
Qed.

(** ** The sanitizer *)

Lemma fallback_clean :
  existsb (fun b => Py.contains b (Py.lower coaching_fallback)) banned = false.
Proof. vm_compute. reflexivity. Qed.

(** C10. The recommendation sanitizer is idempotent: applying it twice gives
    what applying it once gives.  The fallback text holds no denylisted term,
    so it passes through; a text that passed through once passes again. *)
Theorem sanitize_recommendation_idempotent (text : string) :
  sanitize_recommendation (sanitize_recommendation text)
  = sanitize_recommendation text.
Proof.
  unfold sanitize_recommendation.
  destruct (existsb (fun b => Py.contains b (Py.lower text)) banned) eqn:E.
  - rewrite fallback_clean. reflexivity.
  - rewrite E. reflexivity.
Qed.




(** ** Keys, sets and keyed dictionaries *)

Lemma cell_eqb_eq (a b : cell) : cell_eqb a b = true <-> a = b.
Proof.
  destruct a, b; simpl; split; intros H; try discriminate; try reflexivity;
    try (inversion H; subst).
  - apply Bool.eqb_prop in H. congruence.
  - apply Bool.eqb_reflx.
  - apply Z.eqb_eq in H. congruence.
  - apply Z.eqb_refl.
  - apply FloatAxioms.Leibniz.eqb_spec in H. congruence.
  - apply FloatAxioms.Leibniz.eqb_spec. reflexivity.
  - apply String.eqb_eq in H. congruence.
  - apply String.eqb_refl.
  - apply Z.eqb_eq in H. congruence.
  - apply Z.eqb_refl.
Qed.

Lemma key_eqb_eq (a b : key) : key_eqb a b = true <-> a = b.
Proof.
  revert b. induction a as [|x a IH]; destruct b as [|y b]; simpl;
    split; intros H; try discriminate; try reflexivity.
  - apply andb_prop in H as [H1 H2]. apply cell_eqb_eq in H1. apply IH in H2. congruence.
  - inversion H; subst. apply andb_true_intro. split; [apply cell_eqb_eq | apply IH]; reflexivity.
Qed.

Section Keyed.

Context {K : Type} (eqb : K -> K -> bool).
Hypothesis eqb_eq : forall a b, eqb a b = true <-> a = b.

Lemma eqb_refl_K a : eqb a a = true.
Proof. apply eqb_eq. reflexivity. Qed.

Lemma eqb_neq_K a b : a <> b -> eqb a b = false.
Proof.
  intros H. destruct (eqb a b) eqn:E; [|reflexivity]. apply eqb_eq in E. contradiction.
Qed.

Lemma mem_In (x : K) l : mem eqb x l = true <-> In x l.
Proof.
  unfold mem. rewrite existsb_exists. split.
  - intros (y & Hy & E). apply eqb_eq in E. subst. exact Hy.
  - intros H. exists x. split; [exact H | apply eqb_refl_K].
Qed.

Lemma dedup_In (x : K) l : In x (dedup eqb l) <-> In x l.
Proof.
  induction l as [|y l IH]; simpl; [tauto|].
  rewrite filter_In, IH. split.
  - intros [H | [H _]]; auto.
  - intros [H | H]; [auto|].
    destruct (eqb y x) eqn:E.
    + apply eqb_eq in E. auto.
    + right. auto.
Qed.

Lemma dedup_NoDup l : NoDup (dedup eqb l).
Proof.
  induction l as [|y l IH]; simpl; constructor.
  - rewrite filter_In. intros [_ H]. rewrite eqb_refl_K in H. discriminate.
  - apply NoDup_filter. exact IH.
Qed.

Lemma dedup_id l : NoDup l -> dedup eqb l = l.
Proof.
  induction 1 as [|x l Hx Hl IH]; simpl; [reflexivity|].
  rewrite IH. f_equal. apply forallb_filter_id. apply forallb_forall.
  intros y Hy. destruct (eqb x y) eqn:E; [|reflexivity].
  apply eqb_eq in E. subst. contradiction.
Qed.

Context {V : Type}.

Lemma kd_get_update_same k (f : option V -> V) d :
  kd_get eqb (kd_update eqb k f d) k = Some (f (kd_get eqb d k)).
Proof.
  induction d as [|[k' v] d IH]; simpl.
  - rewrite eqb_refl_K. reflexivity.
  - destruct (eqb k k') eqn:E; simpl; rewrite E; [reflexivity | exact IH].
Qed.

Lemma kd_get_update_other k k2 (f : option V -> V) d :
  k2 <> k -> kd_get eqb (kd_update eqb k f d) k2 = kd_get eqb d k2.
Proof.
  intros Hne. induction d as [|[k' v] d IH]; simpl.
  - rewrite (eqb_neq_K _ _ Hne). reflexivity.
  - destruct (eqb k k') eqn:E; simpl.
    + apply eqb_eq in E. subst. rewrite (eqb_neq_K _ _ Hne). reflexivity.
    + rewrite IH. reflexivity.
Qed.

Lemma kd_update_keys k (f : option V -> V) d :
  map fst (kd_update eqb k f d)
  = if mem eqb k (map fst d) then map fst d else (map fst d ++ [k])%list.
Proof.
  induction d as [|[k' v] d IH]; simpl; [reflexivity|].
  destruct (eqb k k') eqn:E; simpl; [reflexivity|].
  rewrite IH. fold (mem eqb k (map fst d)). destruct (mem eqb k (map fst d)); reflexivity.
Qed.

Lemma kd_update_NoDup k (f : option V -> V) d :
  NoDup (map fst d) -> NoDup (map fst (kd_update eqb k f d)).
Proof.
  intros H. rewrite kd_update_keys.
  destruct (mem eqb k (map fst d)) eqn:E; [exact H|].
  apply NoDup_app; [exact H | repeat constructor; simpl; tauto |].
  intros x Hx [<- | []]. apply mem_In in Hx. congruence.
Qed.

Lemma kd_get_In k v (d : list (K * V)) :
  NoDup (map fst d) -> (kd_get eqb d k = Some v <-> In (k, v) d).
Proof.
  induction d as [|[k' v'] d IH]; simpl; intros Hnd.
  - split; [discriminate | tauto].
  - inversion Hnd as [|? ? Hk Hd]; subst.
    destruct (eqb k k') eqn:E.
    + apply eqb_eq in E. subst. split.
      * intros H. inversion H; subst. auto.
      * intros [H | H]; [congruence|]. exfalso. apply Hk.
        change k' with (fst (k', v)). apply in_map. exact H.
    + rewrite (IH Hd). split; [auto|]. intros [H | H]; [|exact H].
      inversion H; subst. rewrite eqb_refl_K in E. discriminate.
Qed.

End Keyed.

(** ** [CONSEC_BELOW] *)

(** *** The loop against the condition of the specification *)

Lemma trailing_run_snoc thr l v :
  trailing_run thr (l ++ [v]) = if below thr v then S (trailing_run thr l) else O.
Proof. unfold trailing_run. rewrite rev_app_distr. reflexivity. Qed.

Lemma streak_is_trailing_run thr l :
  fold_left (step thr) l 0 = Z.of_nat (trailing_run thr l).
Proof.
  induction l as [|v l IH] using rev_ind; [reflexivity|].
  rewrite fold_left_app, trailing_run_snoc. simpl. rewrite IH.
  unfold step, below. destruct (PrimFloat.ltb v thr); lia.
Qed.

Lemma streak_reaches_iff thr h w : forall s,
  streak_reaches thr h s w = true <->
  exists n, (1 <= n <= List.length w)%nat /\ h <= fold_left (step thr) (firstn n w) s.
Proof.
  induction w as [|v w IH]; simpl; intros s.
  - split; [discriminate|]. intros (n & Hn & _). lia.
  - fold (step thr s v). destruct (h <=? step thr s v) eqn:E.
    + split; [|reflexivity]. intros _. exists 1%nat. simpl. split; [lia|].
      apply Z.leb_le. exact E.
    + rewrite IH. apply Z.leb_gt in E. split.
      * intros (n & Hn & H). exists (S n). simpl. split; [lia | exact H].
      * intros (n & Hn & H). destruct n as [|n]; [lia|]. simpl in H.
        destruct n as [|n]; [simpl in H; lia|].
        exists (S n). split; [lia | exact H].
Qed.

Lemma slice_from_recent {A} (n : Z) (l : list A) :
  0 < n -> slice_from (- n) l = most_recent (Z.to_nat n) l.
Proof.
  intros H. unfold slice_from, most_recent.
  destruct (- n <? 0) eqn:E; [|apply Z.ltb_ge in E; lia].
  f_equal. lia.
Qed.

(** For a group that has samples, the loop of the code decides the
    condition of the specification. *)
Lemma group_hit_run_reaches thr h vs :
  0 <= h -> vs <> [] -> group_hit thr h vs = run_reaches thr h vs.
Proof.
  intros Hh Hvs. unfold group_hit, run_reaches.
  destruct (Z.eq_dec h 0) as [-> | Hne].
  - (* hours = 0: the slice is the whole group and the first sample decides *)
    simpl. unfold slice_from. simpl.
    destruct vs as [|v vs]; [congruence|]. simpl.
    destruct (PrimFloat.ltb v thr); reflexivity.
  - replace (h * 2) with (2 * h) by lia.
    rewrite slice_from_recent by lia.
    set (w := most_recent (Z.to_nat (2 * h)) vs).
    apply eq_true_iff_eq. rewrite streak_reaches_iff, existsb_exists. split.
    + intros (n & Hn & H). exists n. split; [apply in_seq; lia|].
      apply Z.leb_le. rewrite <- streak_is_trailing_run. exact H.
    + intros (n & Hn & H). apply in_seq in Hn. apply Z.leb_le in H.
      rewrite <- streak_is_trailing_run in H.
      exists n. split; [|exact H].
      destruct n; [simpl in H; lia | lia].
Qed.

Lemma to_float_cell_value v f : to_float v = Ok f -> f = cell_value v.
Proof.
  destruct v; simpl.
  - intros H. inversion H. reflexivity.
  - intros H. inversion H. reflexivity.
  - unfold Num.float_of_Z. destruct (is_infinity _); intros H; inversion H. reflexivity.
  - intros H. inversion H. reflexivity.
  - destruct s as [|c s]; [intros H; inversion H; reflexivity|].
    destruct (prefix "=" _); [intros H; inversion H; reflexivity|].
    destruct (Num.float_of_str _); intros H; inversion H; reflexivity.
  - destruct (prefix "=" _); [intros H; inversion H; reflexivity|].
    destruct (Num.float_of_str _); intros H; inversion H; reflexivity.
Qed.

Lemma group_values_spec rows groupby metric : forall acc,
  Forall (fun r => is_ok (to_float (get r metric)) = true) rows ->
  NoDup (map fst acc) ->
  (forall k vs, In (k, vs) acc -> vs <> []) ->
  exists grouped,
    group_values rows groupby metric acc = Ok grouped /\
    NoDup (map fst grouped) /\
    (forall k vs, In (k, vs) grouped -> vs <> []) /\
    forall k, values_of grouped k
              = (values_of acc k ++ samples_of rows groupby metric k)%list.
Proof.
  induction rows as [|r rows IH]; intros acc Hok Hnd Hne.
  - exists acc. simpl. repeat split; auto. intros k. unfold samples_of. simpl.
    rewrite app_nil_r. reflexivity.
  - inversion Hok as [|? ? Hr Hrows]; subst. simpl.
    destruct (to_float (get r metric)) as [v|e] eqn:Ev; [|discriminate]. simpl.
    set (k0 := map (get r) groupby).
    set (f := fun o : option (list float) =>
                match o with Some vs => (vs ++ [v])%list | None => [v] end).
    destruct (IH (kd_update key_eqb k0 f acc) Hrows) as (grouped & Hg & Hnd' & Hne' & Hval).
    + apply kd_update_NoDup; [exact key_eqb_eq | exact Hnd].
    + intros k vs Hin.
      apply (kd_get_In key_eqb key_eqb_eq) in Hin;
        [|apply kd_update_NoDup; [exact key_eqb_eq | exact Hnd]].
      destruct (key_eqb k k0) eqn:E.
      * apply key_eqb_eq in E. subst k.
        rewrite (kd_get_update_same key_eqb key_eqb_eq) in Hin.
        inversion Hin; subst. unfold f. destruct (kd_get key_eqb acc k0).
        -- intros H. apply app_eq_nil in H as [_ H]. discriminate.
        -- discriminate.
      * rewrite (kd_get_update_other key_eqb key_eqb_eq) in Hin.
        -- apply (kd_get_In key_eqb key_eqb_eq) in Hin; [|exact Hnd]. eapply Hne; eauto.
        -- intros ->. rewrite (proj2 (key_eqb_eq k0 k0) eq_refl) in E. discriminate.
    + exists grouped. repeat split; auto. intros k. rewrite Hval.
      unfold samples_of. simpl. fold k0. unfold values_of.
      destruct (key_eqb k0 k) eqn:E.
      * apply key_eqb_eq in E. subst k.
        rewrite (kd_get_update_same key_eqb key_eqb_eq). simpl.
        assert (Hmv : metric_value metric r = v)
          by (symmetry; apply to_float_cell_value; exact Ev).
        rewrite Hmv. unfold f.
        destruct (kd_get key_eqb acc k0); simpl; [rewrite <- app_assoc|]; reflexivity.
      * rewrite (kd_get_update_other key_eqb key_eqb_eq); [reflexivity|].
        intros ->. rewrite (proj2 (key_eqb_eq k0 k0) eq_refl) in E. discriminate.
Qed.

Lemma NoDup_keys_filter {K V} (p : K * V -> bool) (d : list (K * V)) :
  NoDup (map fst d) -> NoDup (map fst (filter p d)).
Proof.
  induction d as [|[k v] d IH]; simpl; intros H; [constructor|].
  inversion H as [|? ? Hk Hd]; subst.
  destruct (p (k, v)); simpl; [|auto].
  constructor; [|auto]. intros Hin. apply Hk.
  apply in_map_iff in Hin as ([k' v'] & <- & Hin). apply filter_In in Hin as [Hin _].
  change (fst (k', v')) with (fst (k', v')). apply in_map. exact Hin.
Qed.

(** C6, as the code has it.  For hours that are not negative, samples
    whose grouping cells are text or absent and whose metric cell is not an
    integer too large for a float, [consecutive_below] returns a set of
    keys, and the key of a group is in it exactly when, scanning the group's
    most recent [2 * hours] samples in arrival order, the trailing run of
    samples whose value ([cell_value] of the metric cell) is strictly below
    the threshold reaches the length [hours].  The samples 0.9, 0.6, 0.6,
    0.9 of Line 1 with threshold 0.7 are a hit for 2 hours and not for 3. *)
Theorem consecutive_below_hit_iff :
  (forall rows threshold hours groupby metric,
      0 <= hours ->
      text_columns groupby rows = true ->
      Forall (fun r => is_ok (to_float (get r metric)) = true) rows ->
      exists hits,
        consecutive_below rows threshold hours groupby metric = Ok hits /\
        NoDup hits /\
        forall k,
          In k hits <->
          samples_of rows groupby metric k <> [] /\
          run_reaches threshold hours (samples_of rows groupby metric k) = true)
  /\ consecutive_below (map (hourly_sample "Line 1") [0.9; 0.6; 0.6; 0.9]%float)
       0.7 2 ["Line"] "TargetAttain" = Ok [[CStr "Line 1"]]
  /\ consecutive_below (map (hourly_sample "Line 1") [0.9; 0.6; 0.6; 0.9]%float)
       0.7 3 ["Line"] "TargetAttain" = Ok [].
Proof.
  split; [|split; vm_compute; reflexivity].
  intros rows thr h groupby metric Hh _ Hok.
  destruct (group_values_spec rows groupby metric [] Hok) as (grouped & Hg & Hnd & Hne & Hval);
    [constructor | intros ? ? [] |].
  unfold consecutive_below. rewrite Hg. simpl.
  eexists. split; [reflexivity|]. split; [apply NoDup_keys_filter; exact Hnd|].
  intros k. specialize (Hval k). unfold values_of at 2 in Hval. simpl in Hval.
  rewrite in_map_iff. split.
  - intros ([k' vs] & <- & Hin). apply filter_In in Hin as [Hin Hhit]. simpl in *.
    assert (Hv : values_of grouped k' = vs).
    { unfold values_of. apply (kd_get_In key_eqb key_eqb_eq) in Hin; [|exact Hnd].
      rewrite Hin. reflexivity. }
    rewrite <- Hval, Hv. split; [eapply Hne; eauto|].
    rewrite <- group_hit_run_reaches; [exact Hhit | exact Hh | eapply Hne; eauto].
  - rewrite <- Hval. intros [Hvs Hrun]. unfold values_of in *.
    destruct (kd_get key_eqb grouped k) as [vs|] eqn:E; [|congruence].
    apply (kd_get_In key_eqb key_eqb_eq) in E; [|exact Hnd].
    exists (k, vs). split; [reflexivity|]. apply filter_In. split; [exact E|].
    simpl. rewrite group_hit_run_reaches; auto.
Qed.

(** The theorem at the rows of the example. *)
Lemma consecutive_below_hit_iff_witness :
  exists hits,
    consecutive_below (map (hourly_sample "Line 1") [0.9; 0.6; 0.6; 0.9]%float)
      0.7 2 ["Line"] "TargetAttain" = Ok hits /\
    NoDup hits /\
    forall k,
      In k hits <->
      samples_of (map (hourly_sample "Line 1") [0.9; 0.6; 0.6; 0.9]%float)
        ["Line"] "TargetAttain" k <> [] /\
      run_reaches 0.7 2
        (samples_of (map (hourly_sample "Line 1") [0.9; 0.6; 0.6; 0.9]%float)
           ["Line"] "TargetAttain" k) = true.
Proof.
  apply (proj1 consecutive_below_hit_iff).
  - lia.
  - reflexivity.
  - repeat constructor.
Defined.

(** C6 as stated fails for a negative number of hours: with [hours = -1] no
    sample is among the most recent [2 * hours], the empty trailing run
    reaches the length [-1], and yet the group of one sample is not a hit
    (the code drops the first [2] samples of each group and reports the
    groups that have more). *)
Lemma consecutive_below_negative_hours :
  samples_of [hourly_sample "Line 1" 0.6] ["Line"] "TargetAttain" [CStr "Line 1"]
  = [0.6]%float /\
  run_reaches 0.7 (-1) [0.6]%float = true /\
  consecutive_below [hourly_sample "Line 1" 0.6] 0.7 (-1) ["Line"] "TargetAttain" = Ok [].
Proof. repeat split; vm_compute; reflexivity. Qed.

(** ** The ranker *)

Section StableSort.

Context {A : Type} (le : A -> A -> bool).
Hypothesis le_total : forall a b, le a b = true \/ le b a = true.
Hypothesis le_trans : forall a b c, le a b = true -> le b c = true -> le a c = true.

Lemma insert_by_perm x l : Permutation (x :: l) (insert_by le x l).
Proof.
  induction l as [|y l IH]; simpl; [reflexivity|].
  destruct (le x y); [reflexivity|].
  etransitivity; [apply perm_swap|]. apply perm_skip. exact IH.
Qed.

Lemma sort_by_perm l : Permutation l (sort_by le l).
Proof.
  induction l as [|x l IH]; simpl; [reflexivity|].
  etransitivity; [|apply insert_by_perm]. apply perm_skip. exact IH.
Qed.

Lemma insert_by_sorted x l :
  StronglySorted (fun a b => le a b = true) l ->
  StronglySorted (fun a b => le a b = true) (insert_by le x l).
Proof.
  induction 1 as [|y l Hs IH Hall]; simpl; [repeat constructor|].
  destruct (le x y) eqn:E.
  - constructor; [constructor; assumption|].
    constructor; [exact E|].
    eapply Forall_impl; [|exact Hall]. intros z Hz. eapply le_trans; eauto.
  - constructor; [exact IH|].
    assert (Hyx : le y x = true) by (destruct (le_total x y); congruence).
    eapply Permutation_Forall; [apply insert_by_perm|].
    constructor; assumption.
Qed.

Lemma sort_by_sorted l : StronglySorted (fun a b => le a b = true) (sort_by le l).
Proof.
  induction l as [|x l IH]; simpl; [constructor|]. apply insert_by_sorted. exact IH.
Qed.

Lemma insert_by_stable z x l :
  filter (tie le z) (insert_by le x l) = filter (tie le z) (x :: l).
Proof.
  induction l as [|y l IH]; [reflexivity|].
  simpl insert_by. destruct (le x y) eqn:E; [reflexivity|].
  simpl. simpl in IH. rewrite IH.
  destruct (tie le z x) eqn:Ezx; [|reflexivity].
  destruct (tie le z y) eqn:Ezy; [|reflexivity].
  unfold tie in *. apply andb_prop in Ezx as [_ Hxz]. apply andb_prop in Ezy as [Hzy _].
  rewrite (le_trans _ _ _ Hxz Hzy) in E. discriminate.
Qed.

Lemma sort_by_stable z l : filter (tie le z) (sort_by le l) = filter (tie le z) l.
Proof.
  induction l as [|x l IH]; [reflexivity|].
  simpl sort_by. rewrite insert_by_stable. simpl. rewrite IH. reflexivity.
Qed.

End StableSort.

(** The order of strings is transitive. *)
Lemma string_leb_cons a s b t :
  String.leb (String a s) (String b t)
  = match N.compare (N_of_ascii a) (N_of_ascii b) with
    | Lt => true
    | Eq => String.leb s t
    | Gt => false
    end.
Proof.
  unfold String.leb. simpl. unfold Ascii.compare.
  destruct (N.compare (N_of_ascii a) (N_of_ascii b)); reflexivity.
Qed.

Lemma string_leb_trans s1 : forall s2 s3,
  String.leb s1 s2 = true -> String.leb s2 s3 = true -> String.leb s1 s3 = true.
Proof.
  induction s1 as [|a s1 IH]; intros [|b s2] [|c s3]; try reflexivity;
    try discriminate.
  rewrite !string_leb_cons.
  destruct (N.compare_spec (N_of_ascii a) (N_of_ascii b)) as [E1|E1|E1];
    destruct (N.compare_spec (N_of_ascii b) (N_of_ascii c)) as [E2|E2|E2];
    try discriminate; intros H1 H2.
  - rewrite E1, E2, N.compare_refl. eapply IH; eauto.
  - rewrite E1. apply N.compare_lt_iff in E2. rewrite E2. reflexivity.
  - rewrite <- E2. apply N.compare_lt_iff in E1. rewrite E1. reflexivity.
  - assert (E : (N_of_ascii a < N_of_ascii c)%N) by lia.
    apply N.compare_lt_iff in E. rewrite E. reflexivity.
Qed.

(** [rank_le] is the lexicographic order on severity rank (higher first),
    impact (higher first) and timestamp (earlier first). *)
Lemma rank_le_lex a b :
  rank_le a b = true <->
  severity_rank (severity b) < severity_rank (severity a) \/
  (severity_rank (severity a) = severity_rank (severity b) /\
   (impact b < impact a \/
    (impact a = impact b /\ String.leb (timestamp a) (timestamp b) = true))).
Proof.
  unfold rank_le, rank_key.
  destruct (- severity_rank (severity a) =? - severity_rank (severity b)) eqn:Es.
  - apply Z.eqb_eq in Es.
    destruct (- impact a =? - impact b) eqn:Ei.
    + apply Z.eqb_eq in Ei. split; [intros H; right; split; [lia|right; split; [lia|exact H]]|].
      intros [H | (_ & [H | (_ & H)])]; [lia | lia | exact H].
    + apply Z.eqb_neq in Ei. rewrite Z.ltb_lt. split; [intros H; right; split; [lia|left; lia]|].
      intros [H | (_ & [H | (H & _)])]; lia.
  - apply Z.eqb_neq in Es. rewrite Z.ltb_lt. split; [intros H; left; lia|].
    intros [H | (H & _)]; lia.
Qed.

Lemma rank_le_total a b : rank_le a b = true \/ rank_le b a = true.
Proof.
  rewrite !rank_le_lex.
  destruct (Z.lt_trichotomy (severity_rank (severity a)) (severity_rank (severity b)))
    as [H | [H | H]]; [right; left; exact H| |left; left; exact H].
  destruct (Z.lt_trichotomy (impact a) (impact b)) as [Hi | [Hi | Hi]].
  - right. right. split; [lia|]. left. exact Hi.
  - destruct (String.leb_total (timestamp a) (timestamp b)) as [Ht | Ht].
    + left. right. split; [exact H|]. right. split; [exact Hi | exact Ht].
    + right. right. split; [lia|]. right. split; [lia | exact Ht].
  - left. right. split; [exact H|]. left. exact Hi.
Qed.

Lemma rank_le_trans a b c :
  rank_le a b = true -> rank_le b c = true -> rank_le a c = true.
Proof.
  rewrite !rank_le_lex.
  intros [H1 | (H1 & [I1 | (I1 & T1)])] [H2 | (H2 & [I2 | (I2 & T2)])];
    try (left; lia); right; (split; [lia|]); try (left; lia).
  right. split; [lia|]. eapply string_leb_trans; eauto.
Qed.

(** C3. The ranker returns the triggers it was given, in the order of
    severity rank descending (Urgent 4, Action 3, Watch 2, Info 1, anything
    else 0), then impact descending, then timestamp ascending; triggers that
    tie on all three keep their order.  Three triggers of severities Watch,
    Urgent, Action with equal impact and timestamp come out as Urgent,
    Action, Watch. *)
Theorem rank_orders_triggers :
  (forall ts,
      Permutation ts (rank ts) /\
      StronglySorted (fun a b => rank_le a b = true) (rank ts) /\
      forall x, filter (tie rank_le x) (rank ts) = filter (tie rank_le x) ts)
  /\ (forall a b, rank_le a b = true \/ rank_le b a = true)
  /\ (forall a b,
        rank_le a b = true <->
        severity_rank (severity b) < severity_rank (severity a) \/
        (severity_rank (severity a) = severity_rank (severity b) /\
         (impact b < impact a \/
          (impact a = impact b /\ String.leb (timestamp a) (timestamp b) = true))))
  /\ (severity_rank (CStr "Urgent") = 4 /\ severity_rank (CStr "Action") = 3 /\
      severity_rank (CStr "Watch") = 2 /\ severity_rank (CStr "Info") = 1 /\
      forall s, ~ In s [CStr "Urgent"; CStr "Action"; CStr "Watch"; CStr "Info"] ->
                severity_rank s = 0)
  /\ (forall w u a,
        severity w = CStr "Watch" -> severity u = CStr "Urgent" ->
        severity a = CStr "Action" ->
        impact w = impact u -> impact u = impact a ->
        timestamp w = timestamp u -> timestamp u = timestamp a ->
        rank [w; u; a] = [u; a; w]).
Proof.
  split; [|split; [|split; [|split]]].
  - intros ts. unfold rank. split; [apply sort_by_perm|]. split.
    + apply sort_by_sorted; [exact rank_le_total | exact rank_le_trans].
    + intros x. apply sort_by_stable. exact rank_le_trans.
  - exact rank_le_total.
  - exact rank_le_lex.
  - repeat split; try reflexivity.
    intros s Hs. destruct s as [| | | |name|]; try reflexivity.
    unfold severity_rank, SEVERITY_ORDER. simpl.
    destruct (String.eqb_spec name "Urgent") as [->|_]; [exfalso; apply Hs; simpl; auto|].
    destruct (String.eqb_spec name "Action") as [->|_]; [exfalso; apply Hs; simpl; auto|].
    destruct (String.eqb_spec name "Watch") as [->|_]; [exfalso; apply Hs; simpl; auto|].
    destruct (String.eqb_spec name "Info") as [->|_]; [exfalso; apply Hs; simpl; auto|].
    reflexivity.
  - intros w u a Hw Hu Ha I1 I2 T1 T2.
    assert (Hua : rank_le u a = true).
    { apply rank_le_lex. left. rewrite Hu, Ha. reflexivity. }
    assert (Hwa : rank_le w a = false).
    { destruct (rank_le w a) eqn:E; [|reflexivity].
      apply rank_le_lex in E. rewrite Hw, Ha in E. vm_compute in E.
      destruct E as [E | [E _]]; discriminate. }
    assert (Hwu : rank_le w u = false).
    { destruct (rank_le w u) eqn:E; [|reflexivity].
      apply rank_le_lex in E. rewrite Hw, Hu in E. vm_compute in E.
      destruct E as [E | [E _]]; discriminate. }
    unfold rank. simpl. rewrite Hua. simpl. rewrite Hwu, Hwa. reflexivity.
Qed.

(** The theorem at three triggers of severities Watch, Urgent, Action. *)
Lemma rank_orders_triggers_witness :
  rank [sample_trigger "Watch"; sample_trigger "Urgent"; sample_trigger "Action"]
  = [sample_trigger "Urgent"; sample_trigger "Action"; sample_trigger "Watch"].
Proof.
  apply (proj2 (proj2 (proj2 (proj2 rank_orders_triggers)))); reflexivity.
Defined.

(** ** The evaluator *)

Ltac inv_monad H :=
  unfold bind, lift, ret, rbind in H;
  repeat match type of H with
         | context [match ?x with _ => _ end] =>
             lazymatch x with
             | context [match _ with _ => _ end] => fail
             | _ => let E := fresh "E" in destruct x eqn:E; try discriminate H
             end
         end.

Lemma NoDup_singletons {A} (l : list A) : NoDup l -> NoDup (map (fun x => [x]) l).
Proof.
  induction 1 as [|x l Hx Hl IH]; simpl; constructor; [|exact IH].
  intros Hin. apply in_map_iff in Hin as (y & Hy & Hin). inversion Hy; subst. contradiction.
Qed.

Lemma fold_update_NoDup {E K V} (eqb : K -> K -> bool)
    (eqb_eq : forall a b, eqb a b = true <-> a = b)
    (step : list (K * V) -> E -> list (K * V)) (events : list E) :
  (forall d e, NoDup (map fst d) -> NoDup (map fst (step d e))) ->
  forall acc, NoDup (map fst acc) -> NoDup (map fst (fold_left step events acc)).
Proof.
  intros Hstep. induction events as [|e events IH]; simpl; intros acc H; [exact H|].
  apply IH, Hstep, H.
Qed.

Section EngineFacts.

Variable clock : nat -> DT.datetime.
Variables schedule_rows hourly_rows downtime_rows : list row.
Variable standards : list key.

Local Abbreviation CH := (call_hits clock schedule_rows hourly_rows downtime_rows standards).
Local Abbreviation COLLECT := (collect_hits clock schedule_rows hourly_rows downtime_rows standards).
Local Abbreviation RULE := (rule_triggers clock schedule_rows hourly_rows downtime_rows standards).
Local Abbreviation ALL := (all_triggers clock schedule_rows hourly_rows downtime_rows standards).

Lemma rolling_count_NoDup events w by_ n counts n' :
  rolling_count clock events w by_ n = Ok (counts, n') -> NoDup (map fst counts).
Proof.
  unfold rolling_count, now. intros H. inv_monad H.
  inversion H; subst. apply (fold_update_NoDup key_eqb key_eqb_eq); [|constructor].
  intros acc ev Hacc.
  destruct (parse_dt _); [|exact Hacc].
  destruct (_ <=? _); [|exact Hacc].
  apply kd_update_NoDup; [exact key_eqb_eq | exact Hacc].
Qed.

Lemma actuals_by_line_NoDup rows : forall acc by_line,
  actuals_by_line rows acc = Ok by_line ->
  NoDup (map fst acc) -> NoDup (map fst by_line).
Proof.
  induction rows as [|r rows IH]; simpl; intros acc by_line H Hnd.
  - inversion H; subst. exact Hnd.
  - unfold rbind in H. destruct (to_float (get r "ActualCases")); [|discriminate].
    eapply IH; [exact H|]. apply kd_update_NoDup; [exact cell_eqb_eq | exact Hnd].
Qed.

(** Every hit-set a call appends is a set. *)
Lemma call_hits_NoDup call n h n' : CH call n = Ok (Some h, n') -> NoDup h.
Proof.
  destruct call as [fn args]. unfold call_hits.
  destruct (String.eqb fn "CONSEC_BELOW").
  { unfold hits_consec_below. intros H. inv_monad H. inversion H; subst.
    apply (dedup_NoDup key_eqb key_eqb_eq). }
  destruct (String.eqb fn "ROLLING_COUNT").
  { unfold hits_rolling_count. intros H. unfold bind at 1 in H.
    destruct (bind _ _ n) as [[h0 n0]|] eqn:E0; [|discriminate].
    unfold ret in H. inversion H; subst. clear H.
    unfold bind at 1, lift in E0.
    destruct (as_int (arg args "window_hours" (VInt 2))) as [w|]; [|discriminate].
    unfold bind at 1 in E0.
    destruct (rolling_count _ _ _ _ n) as [[counts n1]|] eqn:Ec; [|discriminate].
    apply rolling_count_NoDup in Ec.
    destruct counts as [|c counts]; [inversion E0; constructor|].
    remember (c :: counts) as cs eqn:Hcs.
    inv_monad E0. injection E0 as <- _.
    apply NoDup_keys_filter. exact Ec. }
  destruct (String.eqb fn "MISSING_STANDARD").
  { unfold ret. intros H. inversion H; subst. apply (dedup_NoDup key_eqb key_eqb_eq). }
  destruct (String.eqb fn "SCHEDULE_OVERLAP").
  { unfold ret. intros H. inversion H; subst. unfold hits_schedule_overlap.
    apply NoDup_singletons, NoDup_filter, (dedup_NoDup cell_eqb cell_eqb_eq). }
  destruct (String.eqb fn "REPEAT_CAUSE").
  { unfold hits_repeat_cause. intros H. inv_monad H. inversion H; subst.
    apply (dedup_NoDup key_eqb key_eqb_eq). }
  destruct (String.eqb fn "FORECAST_SHORTFALL").
  { unfold hits_forecast_shortfall. intros H. unfold bind at 1 in H.
    destruct (bind _ _ n) as [[h0 n0]|] eqn:E0; [|discriminate].
    unfold ret in H. inversion H; subst. clear H.
    unfold bind at 1, lift in E0.
    destruct (actuals_by_line hourly_rows []) as [by_line|] eqn:Ea; [|discriminate].
    apply actuals_by_line_NoDup in Ea; [|constructor].
    unfold bind at 1, lift in E0.
    destruct (planned_by_line schedule_rows []) as [planned|]; [|discriminate].
    destruct by_line as [|l by_line]; [inversion E0; constructor|].
    remember (l :: by_line) as ls eqn:Hls.
    inv_monad E0. injection E0 as <- _.
    rewrite <- (map_map fst (fun l => [l])).
    apply NoDup_singletons, NoDup_keys_filter. exact Ea. }
  unfold ret. discriminate.
Qed.

Lemma call_hits_unrecognized call n :
  recognized (fst call) = false -> CH call n = Ok (None, n).
Proof.
  destruct call as [fn args]. unfold recognized, mem. simpl.
  intros H. repeat (apply orb_false_elim in H as [?E H]).
  unfold call_hits. rewrite E, E0, E1, E2, E3, E4. reflexivity.
Qed.

Lemma collect_of_evaluates parsed n hs n' :
  evaluates_to CH parsed n hs n' ->
  COLLECT parsed n = Ok (hs, n') /\ List.length hs = List.length parsed /\
  Forall (@NoDup key) hs.
Proof.
  induction 1 as [n | call rest n h n1 hs n2 Hc Hev (IH1 & IH2 & IH3)]; simpl.
  - repeat split. constructor.
  - unfold bind at 1. rewrite Hc. unfold bind at 1. rewrite IH1. unfold ret.
    repeat split; [congruence|]. constructor; [|exact IH3].
    eapply call_hits_NoDup; eauto.
Qed.

Lemma emit_all_stamp rule keys : forall n,
  emit_all clock rule keys n = Ok (stamp clock rule n keys, (n + List.length keys)%nat).
Proof.
  induction keys as [|h keys IH]; simpl; intros n.
  - unfold ret. f_equal. f_equal. lia.
  - unfold bind at 1. unfold emit, bind, now, ret. rewrite IH.
    f_equal. f_equal. lia.
Qed.

Lemma stamp_labels rule keys : forall n,
  map affected_entity (stamp clock rule n keys) = map label keys.
Proof. induction keys; simpl; intros; [reflexivity|]. f_equal. auto. Qed.

Lemma stamp_In rule keys t : forall n,
  In t (stamp clock rule n keys) ->
  exists h i, In h keys /\ t = trigger_of rule h (clock i).
Proof.
  induction keys as [|h keys IH]; simpl; intros n; [tauto|].
  intros [<- | H]; [exists h, n; auto|].
  destruct (IH _ H) as (h' & i & Hh & ->). exists h', i. auto.
Qed.

Lemma final_hits_In hs k :
  In k (final_hits hs) <-> hs <> [] /\ forall h, In h hs -> In k h.
Proof.
  destruct hs as [|h others]; simpl; [split; [tauto | intros [H _]; congruence]|].
  unfold inter. destruct others as [|o others].
  - unfold set_of. rewrite (dedup_In key_eqb key_eqb_eq). split.
    + intros H. split; [discriminate|]. intros h' [<- | []]. exact H.
    + intros [_ H]. apply H. left. reflexivity.
  - unfold intersection. rewrite filter_In, forallb_forall. split.
    + intros [Hk Hall]. split; [discriminate|]. intros h' [<- | Hin]; [exact Hk|].
      apply (mem_In key_eqb key_eqb_eq). apply Hall. exact Hin.
    + intros [_ H]. split; [apply H; left; reflexivity|].
      intros h' Hin. apply (mem_In key_eqb key_eqb_eq). apply H. right. exact Hin.
Qed.

Lemma final_hits_NoDup hs : Forall (@NoDup key) hs -> NoDup (final_hits hs).
Proof.
  destruct hs as [|h others]; simpl; intros H; [constructor|].
  inversion H; subst. unfold inter. destruct others.
  - apply (dedup_NoDup key_eqb key_eqb_eq).
  - apply NoDup_filter. assumption.
Qed.

Lemma final_hits_single h : NoDup h -> final_hits [h] = h.
Proof. intros H. simpl. apply (dedup_id key_eqb key_eqb_eq). exact H. Qed.

(** What one pass of the loop over the rules does, rule by rule. *)
Lemma rule_triggers_spec rule n :
  RULE rule n =
  if enabled rule then
    match parse_iflogic (py_str (get_or rule "IfLogic" (CStr ""))) with
    | Err e => Err e
    | Ok parsed =>
        match COLLECT parsed n with
        | Err e => Err e
        | Ok (hs, n1) =>
            Ok (stamp clock rule n1 (final_hits hs),
                (n1 + List.length (final_hits hs))%nat)
        end
    end
  else Ok ([], n).
Proof.
  unfold rule_triggers. destruct (enabled rule); [|reflexivity].
  unfold bind at 1, lift.
  destruct (parse_iflogic _) as [parsed|e]; [|reflexivity].
  unfold bind. destruct (COLLECT parsed n) as [[hs n1]|e]; [|reflexivity].
  destruct hs as [|h others].
  - unfold ret. simpl. f_equal. f_equal. lia.
  - rewrite emit_all_stamp. reflexivity.
Qed.

(** Every Trigger of a run was emitted by one of the rules for some key at
    some reading of the clock. *)
Lemma all_triggers_provenance rules : forall n ts n',
  ALL rules n = Ok (ts, n') ->
  Forall (fun t => exists rule h i, In rule rules /\ t = trigger_of rule h (clock i)) ts.
Proof.
  induction rules as [|rule rules IH]; simpl; intros n ts n' H.
  - inversion H; subst. constructor.
  - unfold bind at 1 in H. rewrite rule_triggers_spec in H.
    destruct (enabled rule).
    + destruct (parse_iflogic _) as [parsed|]; [|discriminate].
      destruct (COLLECT parsed n) as [[hs n1]|]; [|discriminate].
      unfold bind at 1 in H.
      destruct (ALL rules _) as [[more n2]|] eqn:Em; [|discriminate].
      unfold ret in H. inversion H; subst. apply Forall_app. split.
      * apply Forall_forall. intros t Ht. apply stamp_In in Ht as (h & i & _ & ->).
        exists rule, h, i. auto.
      * eapply Forall_impl; [|eapply IH; eauto].
        intros t (r & h & i & Hr & ->). exists r, h, i. auto.
    + unfold bind at 1 in H.
      destruct (ALL rules n) as [[more n2]|] eqn:Em; [|discriminate].
      unfold ret in H. inversion H; subst. simpl.
      eapply Forall_impl; [|eapply IH; eauto].
      intros t (r & h & i & Hr & ->). exists r, h, i. auto.
Qed.

End EngineFacts.

Lemma evaluate_rules_provenance clock rules schedule_rows hourly_rows downtime_rows
    standards_rows ts :
  evaluate_rules clock rules schedule_rows hourly_rows downtime_rows standards_rows = Ok ts ->
  Forall (fun t => exists rule h i, In rule rules /\ t = trigger_of rule h (clock i)) ts.
Proof.
  unfold evaluate_rules. intros H.
  destruct (all_triggers _ _ _ _ _ _ _) as [[raw n]|] eqn:E; [|discriminate].
  inversion H; subst. apply all_triggers_provenance in E.
  eapply Permutation_Forall; [|exact E]. apply sort_by_perm.
Qed.

(** C1. For an enabled rule whose condition parses to calls that each yield
    a hit-set, the keys being made of cells that are text or absent, the
    evaluator's [rule_hits] holds exactly those hit-sets, one per call; the
    final hit-set is a set whose members are the keys present in every one
    of them; with one call it is that call's hit-set; with no call it is
    empty and the rule emits nothing; and the rule emits one Trigger per key
    of the final hit-set. *)
Theorem final_hits_are_the_intersection
    clock schedule_rows hourly_rows downtime_rows standards rule parsed n hs n1 :
  enabled rule = true ->
  parse_iflogic (py_str (get_or rule "IfLogic" (CStr ""))) = Ok parsed ->
  evaluates_to (call_hits clock schedule_rows hourly_rows downtime_rows standards)
    parsed n hs n1 ->
  forallb text_keys hs = true ->
  List.length hs = List.length parsed /\
  collect_hits clock schedule_rows hourly_rows downtime_rows standards parsed n
    = Ok (hs, n1) /\
  NoDup (final_hits hs) /\
  (forall k, In k (final_hits hs) <-> hs <> [] /\ forall h, In h hs -> In k h) /\
  (forall h, hs = [h] -> final_hits hs = h) /\
  (parsed = [] -> final_hits hs = []) /\
  exists ts,
    rule_triggers clock schedule_rows hourly_rows downtime_rows standards rule n
      = Ok (ts, (n1 + List.length (final_hits hs))%nat) /\
    map affected_entity ts = map label (final_hits hs) /\
    (parsed = [] -> ts = []).
Proof.
  intros Hen Hparse Hev _.
  destruct (collect_of_evaluates _ _ _ _ _ _ _ _ _ Hev) as (Hc & Hlen & Hnd).
  split; [exact Hlen|]. split; [exact Hc|].
  split; [apply final_hits_NoDup; exact Hnd|].
  split; [apply final_hits_In|].
  split; [intros h ->; apply final_hits_single; inversion Hnd; assumption|].
  assert (Hnil : parsed = [] -> hs = []).
  { intros ->. inversion Hev. reflexivity. }
  split; [intros Hp; rewrite (Hnil Hp); reflexivity|].
  exists (stamp clock rule n1 (final_hits hs)).
  rewrite rule_triggers_spec, Hen, Hparse, Hc.
  split; [reflexivity|]. split; [apply stamp_labels|].
  intros Hp. rewrite (Hnil Hp). reflexivity.
Qed.

(** The theorem at a rule of two calls: the lines below target for two hours
    that also have overlapping schedule slots. *)
Lemma final_hits_are_the_intersection_witness :
  List.length [[[CStr "Line 1"]; [CStr "Line 2"]]; [[CStr "Line 1"]]] = 2%nat /\
  final_hits [[[CStr "Line 1"]; [CStr "Line 2"]]; [[CStr "Line 1"]]] = [[CStr "Line 1"]] /\
  exists ts,
    rule_triggers frozen_clock overlapping_schedule two_lines_hourly [] []
      consec_and_overlap_rule 0%nat = Ok (ts, 1%nat) /\
    map affected_entity ts = ["Line 1"].
Proof.
  destruct (final_hits_are_the_intersection frozen_clock overlapping_schedule
              two_lines_hourly [] [] consec_and_overlap_rule
              [("CONSEC_BELOW", [("threshold", VFloat 0.7); ("hours", VInt 2)]);
               ("SCHEDULE_OVERLAP", [])]
              0%nat [[[CStr "Line 1"]; [CStr "Line 2"]]; [[CStr "Line 1"]]] 0%nat)
    as (Hlen & _ & _ & _ & _ & _ & ts & Hts & Hlab & _).
  - reflexivity.
  - vm_compute. reflexivity.
  - eapply ev_cons; [vm_compute; reflexivity|].
    eapply ev_cons; [vm_compute; reflexivity|]. apply ev_nil.
  - reflexivity.
  - split; [exact Hlen|]. split; [reflexivity|]. exists ts. split; [exact Hts | exact Hlab].
Defined.

(** A rule table with an enabled rule whose condition does not parse makes
    the whole pass raise. *)
Lemma evaluate_rules_aborts clock rules schedule_rows hourly_rows downtime_rows standards_rows :
  Exists (fun r => enabled r = true /\
                   is_ok (parse_iflogic (py_str (get_or r "IfLogic" (CStr "")))) = false)
    rules ->
  is_ok (evaluate_rules clock rules schedule_rows hourly_rows downtime_rows standards_rows)
  = false.
Proof.
  intros Hex. unfold evaluate_rules.
  assert (H : forall n, is_ok (all_triggers clock schedule_rows hourly_rows downtime_rows
                                 (standards_index standards_rows) rules n) = false).
  { induction Hex as [r rules [Hen Hp] | r rules Hex IH]; intros n; simpl; unfold bind at 1.
    - rewrite rule_triggers_spec, Hen.
      destruct (parse_iflogic _); [discriminate | reflexivity].
    - destruct (rule_triggers _ _ _ _ _ r n) as [[ts n1]|]; [|reflexivity].
      unfold bind. specialize (IH n1).
      destruct (all_triggers _ _ _ _ _ rules n1) as [[more n2]|]; [discriminate | reflexivity]. }
  specialize (H O).
  destruct (all_triggers _ _ _ _ _ rules O) as [[ts n]|]; [discriminate | reflexivity].
Qed.

(** C2, on the code.  A table that holds a rule with a malformed condition
    before a well-formed rule: the pass raises [ValueError] and returns no
    Trigger, while the well-formed rule alone yields its Trigger. *)
Theorem malformed_rule_aborts_the_pass (clock : nat -> DT.datetime) :
  parse_iflogic "consec_below(hours=2)" = Err ValueError /\
  evaluate_rules clock [malformed_rule; consec_rule] [] line1_hourly [] []
    = Err ValueError /\
  evaluate_rules clock [consec_rule] [] line1_hourly [] []
    = Ok [trigger_of consec_rule [CStr "Line 1"] (clock O)].
Proof. repeat split; vm_compute; reflexivity. Qed.

(** C4, as the code has it.  Every Trigger of a run was emitted by a rule of
    the table for a hit key, and its impact is the number of characters of
    the comma-joined populated components of that key: 6 for the key of
    Line 1, 14 for the key of Line 1 and SKU-002, 0 for a key with no
    populated component. *)
Theorem impact_is_entity_length :
  (forall clock rules schedule_rows hourly_rows downtime_rows standards_rows ts,
      evaluate_rules clock rules schedule_rows hourly_rows downtime_rows standards_rows
        = Ok ts ->
      Forall (fun t => exists rule h i,
                  In rule rules /\ t = trigger_of rule h (clock i) /\
                  affected_entity t = label h /\
                  impact t = Z.of_nat (String.length (entity_of h))) ts)
  /\ Z.of_nat (String.length (entity_of [CStr "Line 1"])) = 6
  /\ Z.of_nat (String.length (entity_of [CStr "Line 1"; CStr "SKU-002"])) = 14
  /\ Z.of_nat (String.length (entity_of [CNone; CStr ""])) = 0.
Proof.
  split; [|repeat split].
  intros clock rules s h d st ts H. apply evaluate_rules_provenance in H.
  eapply Forall_impl; [|exact H].
  intros t (rule & k & i & Hr & ->). exists rule, k, i. repeat split. exact Hr.
Qed.

(** The theorem at the run of one rule over the samples of Line 1. *)
Lemma impact_is_entity_length_witness :
  Forall (fun t => exists rule h i,
              In rule [consec_rule] /\ t = trigger_of rule h (frozen_clock i) /\
              affected_entity t = label h /\
              impact t = Z.of_nat (String.length (entity_of h)))
    [trigger_of consec_rule [CStr "Line 1"] (frozen_clock O)].
Proof.
  apply (proj1 impact_is_entity_length frozen_clock [consec_rule] [] line1_hourly [] []).
  vm_compute. reflexivity.
Defined.

(** C4 as stated fails: the Trigger for the key of Line 1, which has one
    populated component, has impact 6. *)
Lemma impact_is_not_the_component_count :
  evaluate_rules frozen_clock [consec_rule] [] line1_hourly [] []
    = Ok [trigger_of consec_rule [CStr "Line 1"] (frozen_clock O)] /\
  populated [CStr "Line 1"] = 1 /\
  impact (trigger_of consec_rule [CStr "Line 1"] (frozen_clock O)) = 6.
Proof. repeat split; vm_compute; reflexivity. Qed.

(** *** The readings of a run *)

Lemma grows_ret {A} (a : A) : grows (ret a).
Proof. intros n a' n' H. inversion H. lia. Qed.

Lemma grows_lift {A} (r : result A) : grows (lift r).
Proof. intros n a n' H. unfold lift in H. destruct r; inversion H. lia. Qed.

Lemma grows_bind {A B} (m : M A) (k : A -> M B) :
  grows m -> (forall a, grows (k a)) -> grows (bind m k).
Proof.
  intros Hm Hk n b n' H. unfold bind in H.
  destruct (m n) as [[a n1]|] eqn:E; [|discriminate].
  apply Hm in E. apply Hk in H. lia.
Qed.

Lemma grows_now clock : grows (now clock).
Proof. intros n a n' H. inversion H. lia. Qed.

Lemma rolling_count_grows clock events w by_ : grows (rolling_count clock events w by_).
Proof.
  unfold rolling_count. apply grows_bind; [apply grows_now|]. intros t0.
  apply grows_bind; [apply grows_lift|]. intros c. apply grows_ret.
Qed.

Lemma call_hits_grows clock schedule_rows hourly_rows downtime_rows standards call :
  grows (call_hits clock schedule_rows hourly_rows downtime_rows standards call).
Proof.
  destruct call as [fn args]. unfold call_hits.
  repeat match goal with
         | |- grows (if ?b then _ else _) => destruct b
         end;
    try apply grows_ret;
    (apply grows_bind; [|intros; apply grows_ret]).
  - unfold hits_consec_below.
    repeat (apply grows_bind; [apply grows_lift | intros]). apply grows_ret.
  - unfold hits_rolling_count.
    apply grows_bind; [apply grows_lift | intros w].
    apply grows_bind; [apply rolling_count_grows | intros counts].
    destruct counts; [apply grows_ret|].
    apply grows_bind; [apply grows_lift | intros]. apply grows_ret.
  - unfold hits_repeat_cause.
    apply grows_bind; [apply grows_lift | intros m].
    apply grows_bind; [apply grows_lift | intros w].
    apply grows_bind; [|intros; apply grows_ret].
    unfold repeats_same_value.
    apply grows_bind; [apply rolling_count_grows | intros; apply grows_ret].
  - unfold hits_forecast_shortfall.
    apply grows_bind; [apply grows_lift | intros bl].
    apply grows_bind; [apply grows_lift | intros pl].
    destruct bl; [apply grows_ret|].
    apply grows_bind; [apply grows_lift | intros]. apply grows_ret.
Qed.

Lemma collect_hits_grows clock schedule_rows hourly_rows downtime_rows standards parsed :
  grows (collect_hits clock schedule_rows hourly_rows downtime_rows standards parsed).
Proof.
  induction parsed as [|call rest IH]; simpl; [apply grows_ret|].
  apply grows_bind; [apply call_hits_grows | intros o].
  apply grows_bind; [exact IH | intros; apply grows_ret].
Qed.

Lemma seq_sorted len : forall a, StronglySorted Nat.lt (seq a len).
Proof.
  induction len as [|len IH]; intros a; simpl; constructor; [apply IH|].
  apply Forall_forall. intros x Hx. apply in_seq in Hx. unfold Nat.lt. lia.
Qed.

Lemma sorted_app {A} (R : A -> A -> Prop) l1 l2 :
  StronglySorted R l1 -> StronglySorted R l2 ->
  (forall x y, In x l1 -> In y l2 -> R x y) ->
  StronglySorted R (l1 ++ l2).
Proof.
  induction 1 as [|x l1 Hs IH Hall]; simpl; intros H2 Hx; [exact H2|].
  constructor.
  - apply IH; [exact H2|]. intros a b Ha Hb. apply Hx; [right; exact Ha | exact Hb].
  - apply Forall_app. split; [exact Hall|].
    apply Forall_forall. intros y Hy. apply Hx; [left; reflexivity | exact Hy].
Qed.

Lemma stamp_readings clock rule keys : forall n,
  Forall2 (fun t i => timestamp t = DT.isoformat_seconds (clock i))
    (stamp clock rule n keys) (seq n (List.length keys)).
Proof.
  induction keys as [|h keys IH]; simpl; intros n; constructor; [reflexivity | apply IH].
Qed.

(** The Triggers of a run, in the order of their emission, carry readings
    that the run took, each Trigger a later one than the Trigger before. *)
Lemma all_triggers_readings clock schedule_rows hourly_rows downtime_rows standards rules :
  forall n ts n',
  all_triggers clock schedule_rows hourly_rows downtime_rows standards rules n = Ok (ts, n') ->
  (n <= n')%nat /\
  exists idx,
    Forall2 (fun t i => timestamp t = DT.isoformat_seconds (clock i)) ts idx /\
    StronglySorted Nat.lt idx /\
    Forall (fun i => (n <= i < n')%nat) idx.
Proof.
  induction rules as [|rule rules IH]; simpl; intros n ts n' H.
  - inversion H; subst. split; [lia|]. exists []. repeat split; constructor.
  - unfold bind at 1 in H. rewrite rule_triggers_spec in H.
    destruct (enabled rule).
    + destruct (parse_iflogic _) as [parsed|]; [|discriminate].
      destruct (collect_hits _ _ _ _ _ parsed n) as [[hs n1]|] eqn:Ec; [|discriminate].
      apply collect_hits_grows in Ec.
      unfold bind at 1 in H.
      destruct (all_triggers _ _ _ _ _ rules _) as [[more n2]|] eqn:Em; [|discriminate].
      unfold ret in H. inversion H; subst. clear H.
      apply IH in Em as (Hle & idx & Hf & Hs & Hb).
      split; [lia|].
      exists (seq n1 (List.length (final_hits hs)) ++ idx)%list. split; [|split].
      * apply Forall2_app; [apply stamp_readings | exact Hf].
      * apply sorted_app; [apply seq_sorted | exact Hs |].
        intros x y Hx Hy. apply in_seq in Hx. rewrite Forall_forall in Hb.
        apply Hb in Hy. unfold Nat.lt. lia.
      * apply Forall_app. split.
        -- apply Forall_forall. intros x Hx. apply in_seq in Hx. lia.
        -- eapply Forall_impl; [|exact Hb]. intros i Hi. simpl in Hi. lia.
    + unfold bind at 1 in H.
      destruct (all_triggers _ _ _ _ _ rules _) as [[more n2]|] eqn:Em; [|discriminate].
      unfold ret in H. inversion H; subst. clear H.
      apply IH in Em. exact Em.
Qed.

(** C5, as the code has it.  A run that returns Triggers took a number of
    readings of the clock, and every Trigger carries, to the second, a
    reading of its own among them: in the order of their emission the
    Triggers carry later and later readings.  The Triggers share one
    timestamp when the readings of the run all show the same second. *)
Theorem timestamps_are_clock_readings
    clock rules schedule_rows hourly_rows downtime_rows standards_rows ts :
  evaluate_rules clock rules schedule_rows hourly_rows downtime_rows standards_rows
    = Ok ts ->
  exists emitted readings idx,
    all_triggers clock schedule_rows hourly_rows downtime_rows
      (standards_index standards_rows) rules O = Ok (emitted, readings) /\
    ts = rank emitted /\
    Forall2 (fun t i => timestamp t = DT.isoformat_seconds (clock i)) emitted idx /\
    StronglySorted Nat.lt idx /\
    Forall (fun i => (i < readings)%nat) idx /\
    ((forall i j, (i < readings)%nat -> (j < readings)%nat ->
        DT.isoformat_seconds (clock i) = DT.isoformat_seconds (clock j)) ->
     forall t1 t2, In t1 ts -> In t2 ts -> timestamp t1 = timestamp t2).
Proof.
  unfold evaluate_rules. intros H.
  destruct (all_triggers _ _ _ _ _ _ _) as [[emitted readings]|] eqn:E; [|discriminate].
  inversion H; subst. clear H.
  destruct (all_triggers_readings _ _ _ _ _ _ _ _ _ E) as (_ & idx & Hf & Hs & Hb).
  exists emitted, readings, idx.
  split; [reflexivity|]. split; [reflexivity|]. split; [exact Hf|]. split; [exact Hs|].
  split; [eapply Forall_impl; [|exact Hb]; intros i Hi; simpl in Hi; lia|].
  intros Hsame t1 t2 H1 H2.
  assert (Hin : forall t, In t (rank emitted) ->
                exists i, (i < readings)%nat /\
                          timestamp t = DT.isoformat_seconds (clock i)).
  { intros t Ht. apply (Permutation_in _ (Permutation_sym (sort_by_perm rank_le emitted))) in Ht.
    clear -Hf Hb Ht. induction Hf as [|t0 i0 ts0 idx0 H0 Hf IH]; [contradiction|].
    inversion Hb as [|? ? Hi Hb']; subst.
    destruct Ht as [<- | Ht]; [exists i0; split; [lia | exact H0]|].
    apply IH; assumption. }
  destruct (Hin _ H1) as (i & Hi & ->). destruct (Hin _ H2) as (j & Hj & ->).
  apply Hsame; assumption.
Qed.

(** The theorem at a run under a clock that stands still: the two Triggers
    carry one timestamp. *)
Lemma timestamps_are_clock_readings_witness :
  evaluate_rules frozen_clock [consec_rule] [] two_lines_hourly [] []
    = Ok [trigger_of consec_rule [CStr "Line 1"] (frozen_clock 0%nat);
          trigger_of consec_rule [CStr "Line 2"] (frozen_clock 1%nat)] /\
  timestamp (trigger_of consec_rule [CStr "Line 1"] (frozen_clock 0%nat))
  = timestamp (trigger_of consec_rule [CStr "Line 2"] (frozen_clock 1%nat)).
Proof.
  assert (Hrun : evaluate_rules frozen_clock [consec_rule] [] two_lines_hourly [] []
                 = Ok [trigger_of consec_rule [CStr "Line 1"] (frozen_clock 0%nat);
                       trigger_of consec_rule [CStr "Line 2"] (frozen_clock 1%nat)])
    by (vm_compute; reflexivity).
  split; [exact Hrun|].
  destruct (timestamps_are_clock_readings frozen_clock [consec_rule] []
              two_lines_hourly [] [] _ Hrun)
    as (emitted & readings & idx & _ & _ & _ & _ & _ & Hsame).
  apply Hsame.
  - intros i j _ _. reflexivity.
  - left. reflexivity.
  - right. left. reflexivity.
Defined.

(** C5 as stated fails: under a clock that advances between the readings,
    the two Triggers of one run carry different timestamps. *)
Lemma timestamps_differ_within_a_run :
  evaluate_rules ticking_clock [consec_rule] [] two_lines_hourly [] []
    = Ok [trigger_of consec_rule [CStr "Line 1"] (ticking_clock 0%nat);
          trigger_of consec_rule [CStr "Line 2"] (ticking_clock 1%nat)] /\
  timestamp (trigger_of consec_rule [CStr "Line 1"] (ticking_clock 0%nat))
    = "2024-01-05T10:00:00" /\
  timestamp (trigger_of consec_rule [CStr "Line 2"] (ticking_clock 1%nat))
    = "2024-01-05T10:00:01".
Proof. repeat split; vm_compute; reflexivity. Qed.

(** *** Two runs that read the same values from the clock *)

Lemma bind_ext {A B} (m1 m2 : M A) (k1 k2 : A -> M B) :
  (forall n, m1 n = m2 n) -> (forall a n, k1 a n = k2 a n) ->
  forall n, bind m1 k1 n = bind m2 k2 n.
Proof.
  intros Hm Hk n. unfold bind. rewrite Hm. destruct (m2 n) as [[a n']|]; [apply Hk | reflexivity].
Qed.

Section SameReadings.

Variables clock1 clock2 : nat -> DT.datetime.
Hypothesis same_readings : forall n, clock1 n = clock2 n.
Variables schedule_rows hourly_rows downtime_rows : list row.
Variable standards : list key.

Lemma now_ext n : now clock1 n = now clock2 n.
Proof. unfold now. rewrite same_readings. reflexivity. Qed.

Lemma rolling_count_ext events w by_ n :
  rolling_count clock1 events w by_ n = rolling_count clock2 events w by_ n.
Proof. unfold rolling_count. apply bind_ext; [exact now_ext | reflexivity]. Qed.

Lemma repeats_same_value_ext rows field m w by_ n :
  repeats_same_value clock1 rows field m w by_ n
  = repeats_same_value clock2 rows field m w by_ n.
Proof.
  unfold repeats_same_value. apply bind_ext; [apply rolling_count_ext | reflexivity].
Qed.

Lemma call_hits_ext call n :
  call_hits clock1 schedule_rows hourly_rows downtime_rows standards call n
  = call_hits clock2 schedule_rows hourly_rows downtime_rows standards call n.
Proof.
  destruct call as [fn args]. unfold call_hits.
  repeat match goal with
         | |- (if ?b then _ else _) _ = _ => destruct b
         end; try reflexivity.
  - apply bind_ext; [|reflexivity]. intros n0. unfold hits_rolling_count.
    apply bind_ext; [reflexivity|]. intros w n1.
    apply bind_ext; [apply rolling_count_ext | reflexivity].
  - apply bind_ext; [|reflexivity]. intros n0. unfold hits_repeat_cause.
    apply bind_ext; [reflexivity|]. intros m n1.
    apply bind_ext; [reflexivity|]. intros w n2.
    apply bind_ext; [apply repeats_same_value_ext | reflexivity].
Qed.

Lemma collect_hits_ext parsed : forall n,
  collect_hits clock1 schedule_rows hourly_rows downtime_rows standards parsed n
  = collect_hits clock2 schedule_rows hourly_rows downtime_rows standards parsed n.
Proof.
  induction parsed as [|call rest IH]; intros n; [reflexivity|]. simpl.
  apply bind_ext; [apply call_hits_ext|]. intros o n1.
  apply bind_ext; [exact IH | reflexivity].
Qed.

End SameReadings.

(** *** Runs that iterate their sets in any order *)

Lemma rank_key_le_refl x : rank_key_le x x = true.
Proof.
  destruct x as [[s i] t]. simpl. rewrite !Z.eqb_refl.
  destruct (String.leb_total t t); assumption.
Qed.

Lemma rank_key_le_antisym x y :
  rank_key_le x y = true -> rank_key_le y x = true -> x = y.
Proof.
  destruct x as [[s1 i1] t1], y as [[s2 i2] t2]. simpl.
  rewrite (Z.eqb_sym s2 s1), (Z.eqb_sym i2 i1).
  destruct (s1 =? s2) eqn:Es.
  - apply Z.eqb_eq in Es. subst.
    destruct (i1 =? i2) eqn:Ei.
    + apply Z.eqb_eq in Ei. subst. intros H1 H2.
      rewrite (String.leb_antisym _ _ H1 H2). reflexivity.
    + intros H1 H2. apply Z.ltb_lt in H1, H2. lia.
  - intros H1 H2. apply Z.ltb_lt in H1, H2. lia.
Qed.

Lemma sorted_perm_eq {A} (le : A -> A -> bool) :
  (forall a, le a a = true) ->
  (forall a b, le a b = true -> le b a = true -> a = b) ->
  forall l1 l2,
    StronglySorted (fun a b => le a b = true) l1 ->
    StronglySorted (fun a b => le a b = true) l2 ->
    Permutation l1 l2 -> l1 = l2.
Proof.
  intros Hrefl Hanti. induction l1 as [|a t1 IH]; intros l2 H1 H2 Hp.
  - apply Permutation_nil in Hp. subst. reflexivity.
  - destruct l2 as [|b t2]; [apply Permutation_sym, Permutation_nil in Hp; discriminate|].
    inversion H1 as [|? ? Hs1 Ha]; subst. inversion H2 as [|? ? Hs2 Hb]; subst.
    assert (Hab : le a b = true).
    { assert (Hin : In b (a :: t1))
        by (apply (Permutation_in _ (Permutation_sym Hp)); left; reflexivity).
      destruct Hin as [<- | Hin]; [apply Hrefl|].
      rewrite Forall_forall in Ha. apply Ha. exact Hin. }
    assert (Hba : le b a = true).
    { assert (Hin : In a (b :: t2)) by (apply (Permutation_in _ Hp); left; reflexivity).
      destruct Hin as [<- | Hin]; [apply Hrefl|].
      rewrite Forall_forall in Hb. apply Hb. exact Hin. }
    assert (a = b) by (apply Hanti; assumption). subst b.
    f_equal. apply IH; [assumption | assumption |].
    eapply Permutation_cons_inv. exact Hp.
Qed.

Lemma rank_le_keys a b : rank_le a b = rank_key_le (rank_key a) (rank_key b).
Proof. reflexivity. Qed.

Lemma sorted_rank_keys l :
  StronglySorted (fun a b => rank_le a b = true) l ->
  StronglySorted (fun x y => rank_key_le x y = true) (map rank_key l).
Proof.
  induction 1 as [|a l Hs IH Hall]; simpl; constructor; [exact IH|].
  apply Forall_forall. intros x Hx. apply in_map_iff in Hx as (b & <- & Hb).
  rewrite Forall_forall in Hall. rewrite <- rank_le_keys. apply Hall. exact Hb.
Qed.

(** Two ranked lists with the same Triggers hold, place by place, Triggers
    of the same severity rank, impact and timestamp. *)
Lemma ranked_perm_keys l1 l2 :
  Permutation l1 l2 -> map rank_key (rank l1) = map rank_key (rank l2).
Proof.
  intros Hp. apply (sorted_perm_eq rank_key_le rank_key_le_refl rank_key_le_antisym).
  - apply sorted_rank_keys. apply sort_by_sorted; [exact rank_le_total | exact rank_le_trans].
  - apply sorted_rank_keys. apply sort_by_sorted; [exact rank_le_total | exact rank_le_trans].
  - apply Permutation_map.
    etransitivity; [apply Permutation_sym, sort_by_perm|].
    etransitivity; [exact Hp | apply sort_by_perm].
Qed.

Lemma stamp_untimed clock rule keys : forall n,
  map untimed (stamp clock rule n keys)
  = map (fun k => untimed (trigger_of rule k 0)) keys.
Proof. induction keys as [|k keys IH]; simpl; intros n; [reflexivity|]. rewrite IH. reflexivity. Qed.

Lemma trigger_of_second rule k t1 t2 :
  DT.isoformat_seconds t1 = DT.isoformat_seconds t2 ->
  trigger_of rule k t1 = trigger_of rule k t2.
Proof. intros H. unfold trigger_of. rewrite H. reflexivity. Qed.

Lemma stamp_same_second clock rule t0 keys : forall n,
  (forall i, (n <= i < n + List.length keys)%nat ->
             DT.isoformat_seconds (clock i) = DT.isoformat_seconds t0) ->
  stamp clock rule n keys = map (fun k => trigger_of rule k t0) keys.
Proof.
  induction keys as [|k keys IH]; simpl; intros n H; [reflexivity|].
  rewrite (IH (S n)); [|intros i Hi; apply H; lia].
  rewrite (trigger_of_second rule k (clock n) t0); [reflexivity|]. apply H. lia.
Qed.

Section RunFacts.

Variables clock1 clock2 : nat -> DT.datetime.
Hypothesis same_readings : forall n, clock1 n = clock2 n.
Variables schedule_rows hourly_rows downtime_rows : list row.
Variable standards : list key.

Local Abbreviation RUN1 := (rule_run clock1 schedule_rows hourly_rows downtime_rows standards).
Local Abbreviation RUN2 := (rule_run clock2 schedule_rows hourly_rows downtime_rows standards).
Local Abbreviation TABLE1 := (table_run clock1 schedule_rows hourly_rows downtime_rows standards).
Local Abbreviation TABLE2 := (table_run clock2 schedule_rows hourly_rows downtime_rows standards).

Lemma rule_run_grows rule n ts n' : RUN1 rule n ts n' -> (n <= n')%nat.
Proof.
  intros H. inversion H as [|? ? parsed hs n0 keys _ _ Hc _]; subst; [lia|].
  apply collect_hits_grows in Hc. lia.
Qed.

Lemma table_run_grows rules n ts n' : TABLE1 rules n ts n' -> (n <= n')%nat.
Proof.
  induction 1 as [|rule rest n ts n1 more n2 Hr _ IH]; [lia|].
  apply rule_run_grows in Hr. lia.
Qed.

Lemma rule_run_agree rule n ts1 n1 ts2 n2 :
  RUN1 rule n ts1 n1 -> RUN2 rule n ts2 n2 ->
  n1 = n2 /\
  Permutation (map untimed ts1) (map untimed ts2) /\
  ((forall i j, (n <= i < n1)%nat -> (n <= j < n1)%nat ->
      DT.isoformat_seconds (clock1 i) = DT.isoformat_seconds (clock1 j)) ->
   Permutation ts1 ts2).
Proof.
  intros H1 H2.
  inversion H1 as [? ? Hoff1 | ? ? parsed1 hs1 m1 keys1 Hon1 Hp1 Hc1 Hk1]; subst;
    inversion H2 as [? ? Hoff2 | ? ? parsed2 hs2 m2 keys2 Hon2 Hp2 Hc2 Hk2]; subst;
    try congruence.
  - repeat split; intros; constructor.
  - rewrite Hp1 in Hp2. inversion Hp2; subst parsed2. clear Hp2.
    rewrite (collect_hits_ext clock1 clock2 same_readings) in Hc1.
    rewrite Hc1 in Hc2. inversion Hc2; subst hs2 m2. clear Hc2.
    assert (Hkeys : Permutation keys1 keys2)
      by (etransitivity; [exact Hk1 | apply Permutation_sym; exact Hk2]).
    assert (Hlen : List.length keys1 = List.length keys2)
      by (apply Permutation_length; exact Hkeys).
    split; [lia|]. split.
    + rewrite !stamp_untimed. apply Permutation_map. exact Hkeys.
    + intros Hsame.
      assert (Hle : (n <= m1)%nat).
      { rewrite <- (collect_hits_ext clock1 clock2 same_readings) in Hc1.
        apply collect_hits_grows in Hc1. exact Hc1. }
      destruct keys1 as [|k1 rest1].
      { apply Permutation_nil in Hkeys. subst. constructor. }
      rewrite (stamp_same_second clock1 rule (clock1 m1)).
      * rewrite (stamp_same_second clock2 rule (clock1 m1)).
        -- apply Permutation_map. exact Hkeys.
        -- intros i Hi. rewrite <- same_readings. apply Hsame; simpl in *; lia.
      * intros i Hi. apply Hsame; simpl in *; lia.
Qed.

Lemma table_run_agree rules : forall n ts1 n1 ts2 n2,
  TABLE1 rules n ts1 n1 -> TABLE2 rules n ts2 n2 ->
  n1 = n2 /\
  Permutation (map untimed ts1) (map untimed ts2) /\
  ((forall i j, (n <= i < n1)%nat -> (n <= j < n1)%nat ->
      DT.isoformat_seconds (clock1 i) = DT.isoformat_seconds (clock1 j)) ->
   Permutation ts1 ts2).
Proof.
  induction rules as [|rule rest IH]; intros n ts1 n1 ts2 n2 H1 H2.
  - inversion H1; subst. inversion H2; subst. repeat split; intros; constructor.
  - inversion H1 as [|? ? ? a1 m1 b1 ? Hr1 Ht1]; subst.
    inversion H2 as [|? ? ? a2 m2 b2 ? Hr2 Ht2]; subst.
    destruct (rule_run_agree _ _ _ _ _ _ Hr1 Hr2) as (Hm & Hu & Hs). subst m2.
    destruct (IH _ _ _ _ _ Ht1 Ht2) as (Hn & Hu' & Hs'). subst n2.
    pose proof (rule_run_grows _ _ _ _ Hr1) as Hg1.
    pose proof (table_run_grows _ _ _ _ Ht1) as Hg2.
    split; [reflexivity|]. split.
    + rewrite !map_app. apply Permutation_app; assumption.
    + intros Hsame. apply Permutation_app.
      * apply Hs. intros i j Hi Hj. apply Hsame; lia.
      * apply Hs'. intros i j Hi Hj. apply Hsame; lia.
Qed.

End RunFacts.

(** What [all_triggers] computes is one of the runs. *)
Lemma all_triggers_run clock schedule_rows hourly_rows downtime_rows standards rules :
  forall n ts n',
  all_triggers clock schedule_rows hourly_rows downtime_rows standards rules n = Ok (ts, n') ->
  table_run clock schedule_rows hourly_rows downtime_rows standards rules n ts n'.
Proof.
  induction rules as [|rule rules IH]; simpl; intros n ts n' H.
  - inversion H; subst. constructor.
  - unfold bind at 1 in H. rewrite rule_triggers_spec in H.
    destruct (enabled rule) eqn:En.
    + destruct (parse_iflogic _) as [parsed|] eqn:Ep; [|discriminate].
      destruct (collect_hits _ _ _ _ _ parsed n) as [[hs n1]|] eqn:Ec; [|discriminate].
      unfold bind at 1 in H.
      destruct (all_triggers _ _ _ _ _ rules _) as [[more n2]|] eqn:Em; [|discriminate].
      unfold ret in H. injection H as <- <-.
      econstructor; [|apply IH; exact Em].
      eapply run_enabled; eauto.
    + unfold bind at 1 in H.
      destruct (all_triggers _ _ _ _ _ rules _) as [[more n2]|] eqn:Em; [|discriminate].
      unfold ret in H. injection H as <- <-.
      change more with ([] ++ more)%list. econstructor; [|apply IH; exact Em].
      apply run_disabled. exact En.
Qed.



(** A run of a table of one enabled rule. *)
Lemma single_rule_run clock schedule_rows hourly_rows downtime_rows standards_rows
    rule parsed hs n0 keys ts readings :
  enabled rule = true ->
  parse_iflogic (py_str (get_or rule "IfLogic" (CStr ""))) = Ok parsed ->
  collect_hits clock schedule_rows hourly_rows downtime_rows
    (standards_index standards_rows) parsed O = Ok (hs, n0) ->
  Permutation keys (final_hits hs) ->
  ts = rank (stamp clock rule n0 keys) ->
  readings = (n0 + List.length keys)%nat ->
  possible_result clock [rule] schedule_rows hourly_rows downtime_rows standards_rows
    ts readings.
Proof.
  intros En Hp Hc Hk -> ->. exists (stamp clock rule n0 keys). split; [|reflexivity].
  rewrite <- (app_nil_r (stamp clock rule n0 keys)).
  econstructor; [|constructor].
  eapply run_enabled; eassumption.
Qed.


(** *** Calls outside the six names *)

Section Unrecognized.

Variable clock : nat -> DT.datetime.
Variables schedule_rows hourly_rows downtime_rows : list row.
Variable standards : list key.

Lemma collect_hits_filter parsed : forall n,
  collect_hits clock schedule_rows hourly_rows downtime_rows standards parsed n
  = collect_hits clock schedule_rows hourly_rows downtime_rows standards
      (filter (fun c => recognized (fst c)) parsed) n.
Proof.
  induction parsed as [|call rest IH]; intros n; [reflexivity|]. simpl.
  destruct (recognized (fst call)) eqn:E.
  - simpl. apply bind_ext; [reflexivity|]. intros o n1.
    apply bind_ext; [exact IH | reflexivity].
  - unfold bind at 1. rewrite (call_hits_unrecognized _ _ _ _ _ _ _ E).
    unfold bind, ret. rewrite IH.
    destruct (collect_hits _ _ _ _ _ _ n) as [[hs n1]|]; reflexivity.
Qed.

Lemma collect_hits_none parsed n :
  forallb (fun c => negb (recognized (fst c))) parsed = true ->
  collect_hits clock schedule_rows hourly_rows downtime_rows standards parsed n = Ok ([], n).
Proof.
  intros H. rewrite collect_hits_filter.
  replace (filter (fun c => recognized (fst c)) parsed) with (@nil (string * dict value));
    [reflexivity|].
  induction parsed as [|call rest IH]; [reflexivity|]. simpl in *.
  apply andb_prop in H as [Hc Hr]. destruct (recognized (fst call)); [discriminate|].
  apply IH. exact Hr.
Qed.

End Unrecognized.

(** C9. A call whose name is none of the six is skipped without an error and
    without a hit-set: the [rule_hits] of a condition are those of its
    recognized calls alone, so the rule behaves as if the other calls were
    absent, and a rule with no recognized call emits no Trigger. *)
Theorem unrecognized_calls_are_ignored
    clock schedule_rows hourly_rows downtime_rows standards :
  (forall call n,
      recognized (fst call) = false ->
      call_hits clock schedule_rows hourly_rows downtime_rows standards call n
      = Ok (None, n))
  /\ (forall parsed n,
        collect_hits clock schedule_rows hourly_rows downtime_rows standards parsed n
        = collect_hits clock schedule_rows hourly_rows downtime_rows standards
            (filter (fun c => recognized (fst c)) parsed) n)
  /\ (forall rule parsed n,
        enabled rule = true ->
        parse_iflogic (py_str (get_or rule "IfLogic" (CStr ""))) = Ok parsed ->
        rule_triggers clock schedule_rows hourly_rows downtime_rows standards rule n
        = match collect_hits clock schedule_rows hourly_rows downtime_rows standards
                  (filter (fun c => recognized (fst c)) parsed) n with
          | Ok (hs, n1) =>
              Ok (stamp clock rule n1 (final_hits hs),
                  (n1 + List.length (final_hits hs))%nat)
          | Err e => Err e
          end)
  /\ (forall rule parsed n,
        enabled rule = true ->
        parse_iflogic (py_str (get_or rule "IfLogic" (CStr ""))) = Ok parsed ->
        forallb (fun c => negb (recognized (fst c))) parsed = true ->
        rule_triggers clock schedule_rows hourly_rows downtime_rows standards rule n
        = Ok ([], n)).
Proof.
  split; [|split; [|split]].
  - intros call n H. apply call_hits_unrecognized. exact H.
  - intros parsed n. apply collect_hits_filter.
  - intros rule parsed n Hen Hp.
    rewrite rule_triggers_spec, Hen, Hp, collect_hits_filter. reflexivity.
  - intros rule parsed n Hen Hp Hall.
    rewrite rule_triggers_spec, Hen, Hp, (collect_hits_none _ _ _ _ _ _ _ Hall).
    simpl. f_equal. f_equal. lia.
Qed.

(** The theorem at a rule whose two calls are both unknown. *)
Lemma unrecognized_calls_are_ignored_witness :
  rule_triggers ticking_clock [] two_lines_hourly [] [] unknown_calls_rule 0%nat
  = Ok ([], 0%nat).
Proof.
  apply (proj2 (proj2 (proj2
           (unrecognized_calls_are_ignored ticking_clock [] two_lines_hourly [] [])))
           unknown_calls_rule [("FOO", []); ("BAR", [("x", VInt 1)])]).
  - reflexivity.
  - vm_compute. reflexivity.
  - reflexivity.
Defined.

(** * Further properties *)

(** ** Further properties of the evaluator *)

Section DisabledRules.

Variable clock : nat -> DT.datetime.
Variables schedule_rows hourly_rows downtime_rows : list row.
Variable standards : list key.

Lemma all_triggers_enabled_only rules : forall n,
  all_triggers clock schedule_rows hourly_rows downtime_rows standards rules n
  = all_triggers clock schedule_rows hourly_rows downtime_rows standards
      (filter enabled rules) n.
Proof.
  induction rules as [|rule rest IH]; intros n; [reflexivity|]. simpl.
  destruct (enabled rule) eqn:E.
  - simpl. apply bind_ext; [reflexivity|]. intros ts n1.
    apply bind_ext; [exact IH | reflexivity].
  - unfold bind at 1. rewrite rule_triggers_spec, E. unfold bind, ret. rewrite IH.
    destruct (all_triggers _ _ _ _ _ _ n) as [[more n1]|]; reflexivity.
Qed.

End DisabledRules.

(** X1. Rules that are not enabled take no part in a run: the evaluator
    returns what it returns on the enabled rules alone, and a table with no
    enabled rule yields no Trigger and no error, whatever its conditions. *)
Theorem disabled_rules_take_no_part
    clock rules schedule_rows hourly_rows downtime_rows standards_rows :
  evaluate_rules clock rules schedule_rows hourly_rows downtime_rows standards_rows
  = evaluate_rules clock (filter enabled rules) schedule_rows hourly_rows downtime_rows
      standards_rows
  /\ (forallb (fun r => negb (enabled r)) rules = true ->
      evaluate_rules clock rules schedule_rows hourly_rows downtime_rows standards_rows
      = Ok []).
Proof.
  assert (H : evaluate_rules clock rules schedule_rows hourly_rows downtime_rows standards_rows
              = evaluate_rules clock (filter enabled rules) schedule_rows hourly_rows
                  downtime_rows standards_rows).
  { unfold evaluate_rules. rewrite all_triggers_enabled_only. reflexivity. }
  split; [exact H|]. intros Hoff. rewrite H. clear H.
  replace (filter enabled rules) with (@nil row); [reflexivity|].
  induction rules as [|r rules IH]; [reflexivity|]. simpl in *.
  apply andb_prop in Hoff as [Hr Hrest]. destruct (enabled r); [discriminate|].
  apply IH. exact Hrest.
Qed.

(** The theorem at a table of two disabled rules, one of them malformed. *)
Lemma disabled_rules_take_no_part_witness :
  evaluate_rules ticking_clock disabled_rules [] two_lines_hourly [] [] = Ok [].
Proof.
  apply (proj2 (disabled_rules_take_no_part ticking_clock disabled_rules []
                  two_lines_hourly [] [])).
  reflexivity.
Defined.

Lemma sanitize_clean text : mentions_banned (sanitize_recommendation text) = false.
Proof.
  unfold sanitize_recommendation. fold (mentions_banned text).
  destruct (mentions_banned text) eqn:E; [apply fallback_clean | exact E].
Qed.

(** X2. No recommendation leaves the engine with a denylisted term in it:
    the sanitizer's result never mentions one, in any letter case, and so
    neither does the recommendation of any Trigger of a run. *)
Theorem recommendations_are_clean :
  (forall text, mentions_banned (sanitize_recommendation text) = false)
  /\ (forall clock rules schedule_rows hourly_rows downtime_rows standards_rows ts,
        evaluate_rules clock rules schedule_rows hourly_rows downtime_rows standards_rows
          = Ok ts ->
        Forall (fun t => mentions_banned (recommendation t) = false) ts).
Proof.
  split; [exact sanitize_clean|].
  intros clock rules s h d st ts H. apply evaluate_rules_provenance in H.
  eapply Forall_impl; [|exact H].
  intros t (rule & k & i & _ & ->). apply sanitize_clean.
Qed.

(** The theorem at the run of one rule over the samples of Line 1. *)
Lemma recommendations_are_clean_witness :
  Forall (fun t => mentions_banned (recommendation t) = false)
    [trigger_of consec_rule [CStr "Line 1"] (frozen_clock 0%nat)].
Proof.
  apply (proj2 recommendations_are_clean frozen_clock [consec_rule] [] line1_hourly [] []).
  vm_compute. reflexivity.
Defined.

Lemma label_nonempty h : nonempty (label h) = true.
Proof. unfold label. destruct (nonempty (entity_of h)) eqn:E; [exact E | reflexivity]. Qed.

Lemma length_zero_empty s : String.length s = 0%nat -> s = "".
Proof. destruct s; [reflexivity | discriminate]. Qed.

(** X3. Every Trigger of a run names an entity: the label is never empty,
    the impact is never negative, and an impact of zero goes with the
    fallback label [Unknown]. *)
Theorem triggers_name_an_entity
    clock rules schedule_rows hourly_rows downtime_rows standards_rows ts :
  evaluate_rules clock rules schedule_rows hourly_rows downtime_rows standards_rows
    = Ok ts ->
  Forall (fun t => affected_entity t <> "" /\ 0 <= impact t /\
                   (impact t = 0 -> affected_entity t = "Unknown")) ts.
Proof.
  intros H. apply evaluate_rules_provenance in H.
  eapply Forall_impl; [|exact H].
  intros t (rule & k & i & _ & ->). simpl. repeat split.
  - intros E. pose proof (label_nonempty k) as Hn. rewrite E in Hn. discriminate.
  - lia.
  - intros Hz. unfold label.
    assert (E : entity_of k = "") by (apply length_zero_empty; lia).
    rewrite E. reflexivity.
Qed.

(** The theorem at the run of one rule over the samples of Line 1. *)
Lemma triggers_name_an_entity_witness :
  Forall (fun t => affected_entity t <> "" /\ 0 <= impact t /\
                   (impact t = 0 -> affected_entity t = "Unknown"))
    [trigger_of consec_rule [CStr "Line 1"] (frozen_clock 0%nat)].
Proof.
  apply (triggers_name_an_entity frozen_clock [consec_rule] [] line1_hourly [] []).
  vm_compute. reflexivity.
Defined.

Lemma sort_by_sorted_id {A} (le : A -> A -> bool) l :
  StronglySorted (fun a b => le a b = true) l -> sort_by le l = l.
Proof.
  induction 1 as [|x l Hs IH Hall]; [reflexivity|]. simpl. rewrite IH.
  destruct l as [|y l]; [reflexivity|]. simpl.
  inversion Hall as [|? ? Hxy _]; subst. rewrite Hxy. reflexivity.
Qed.

(** X4. Ranking is idempotent: ranking a ranked list of Triggers leaves it
    as it is. *)
Theorem rank_idempotent (ts : list Trigger) : rank (rank ts) = rank ts.
Proof.
  unfold rank. apply sort_by_sorted_id.
  apply sort_by_sorted; [exact rank_le_total | exact rank_le_trans].
Qed.

(** X5. For hit-sets whose keys are made of cells that are text or absent,
    the final hit-set of a rule depends on which hit-sets its calls yield,
    not on their order or on repetitions: two lists of hit-sets with the
    same members have final hit-sets with the same keys. *)
Theorem final_hits_order_free (hs hs' : list (list key)) :
  forallb text_keys hs = true ->
  forallb text_keys hs' = true ->
  (forall h, In h hs <-> In h hs') ->
  forall k, In k (final_hits hs) <-> In k (final_hits hs').
Proof.
  intros _ _ Hsame k. rewrite !final_hits_In.
  assert (Hne : hs <> [] <-> hs' <> []).
  { split; intros H E; subst.
    - destruct hs as [|a l]; [congruence|].
      apply (proj1 (Hsame a)). left. reflexivity.
    - destruct hs' as [|b l]; [congruence|].
      apply (proj2 (Hsame b)). left. reflexivity. }
  split; intros [H1 H2]; (split; [apply Hne; exact H1|]); intros h Hh; apply H2, Hsame, Hh.
Qed.

(** The theorem at two hit-sets given in one order, and in the other with
    a repetition. *)
Lemma final_hits_order_free_witness :
  In [CStr "Line 1"]
    (final_hits [[[CStr "Line 1"]; [CStr "Line 2"]]; [[CStr "Line 1"]]]) <->
  In [CStr "Line 1"]
    (final_hits [[[CStr "Line 1"]]; [[CStr "Line 1"]; [CStr "Line 2"]];
                 [[CStr "Line 1"]]]).
Proof.
  apply final_hits_order_free; [reflexivity | reflexivity |].
  intros h. simpl. tauto.
Defined.

Lemma count_loop cutoff by_ events : forall counts (c0 : key -> Z),
  NoDup (map fst counts) ->
  (forall k, 0 <= c0 k) ->
  (forall k, kd_get key_eqb counts k = count_entry (c0 k)) ->
  NoDup (map fst (fold_left (count_step cutoff by_) events counts)) /\
  forall k, kd_get key_eqb (fold_left (count_step cutoff by_) events counts) k
            = count_entry (c0 k + window_count cutoff by_ events k).
Proof.
  induction events as [|e events IH]; intros counts c0 Hnd Hpos Hget.
  - simpl. split; [exact Hnd|]. intros k. unfold window_count. simpl.
    rewrite Z.add_0_r. apply Hget.
  - simpl.
    set (hit := fun k => if (in_window cutoff e && key_eqb (map (get e) by_) k)%bool
                         then 1 else 0).
    destruct (IH (count_step cutoff by_ counts e) (fun k => c0 k + hit k)) as [H1 H2].
    + unfold count_step. destruct (parse_dt _); [|exact Hnd].
      destruct (cutoff <=? _); [|exact Hnd].
      apply kd_update_NoDup; [exact key_eqb_eq | exact Hnd].
    + intros k. specialize (Hpos k). unfold hit. destruct (_ && _)%bool; lia.
    + intros k. unfold hit, in_window, event_time, count_step.
      destruct (parse_dt _) as [t|]; [|simpl; rewrite Z.add_0_r; apply Hget].
      destruct (cutoff <=? t); [|simpl; rewrite Z.add_0_r; apply Hget]. simpl.
      destruct (key_eqb (map (get e) by_) k) eqn:E.
      * apply key_eqb_eq in E. subst k.
        rewrite (kd_get_update_same key_eqb key_eqb_eq), Hget.
        specialize (Hpos (map (get e) by_)). unfold count_entry.
        destruct (c0 _ =? 0) eqn:E0.
        -- apply Z.eqb_eq in E0. rewrite E0. reflexivity.
        -- apply Z.eqb_neq in E0. destruct (c0 _ + 1 =? 0) eqn:E1; [|reflexivity].
           apply Z.eqb_eq in E1. lia.
      * rewrite (kd_get_update_other key_eqb key_eqb_eq).
        -- rewrite Z.add_0_r. apply Hget.
        -- intros ->. rewrite (proj2 (key_eqb_eq _ _) eq_refl) in E. discriminate.
    + split; [exact H1|]. intros k. rewrite H2. f_equal. unfold window_count. simpl.
      unfold hit. destruct (_ && _)%bool; simpl; lia.
Qed.

Lemma count_loop_empty cutoff by_ events :
  NoDup (map fst (fold_left (count_step cutoff by_) events [])) /\
  forall k, kd_get key_eqb (fold_left (count_step cutoff by_) events []) k
            = count_entry (window_count cutoff by_ events k).
Proof.
  apply (count_loop cutoff by_ events [] (fun _ => 0));
    [constructor | intros; lia | reflexivity].
Qed.

Lemma rolling_count_run clock events window_hours by_ n :
  rolling_count clock events window_hours by_ n
  = match DT.sub_hours (clock n) window_hours with
    | Ok cutoff => Ok (fold_left (count_step cutoff by_) events [], S n)
    | Err e => Err e
    end.
Proof.
  unfold rolling_count, bind, now, lift.
  destruct (DT.sub_hours (clock n) window_hours); reflexivity.
Qed.

(** X6. [rolling_count] reads the clock once.  It raises when the window
    does not give a date-time, and otherwise returns a dictionary with each
    key once, in which a key has an entry exactly when some event with that
    key lies within the window, the entry being the number of such events. *)
Theorem rolling_count_counts clock events window_hours by_ n :
  match DT.sub_hours (clock n) window_hours with
  | Err e => rolling_count clock events window_hours by_ n = Err e
  | Ok cutoff =>
      exists counts,
        rolling_count clock events window_hours by_ n = Ok (counts, S n) /\
        NoDup (map fst counts) /\
        forall k, kd_get key_eqb counts k
                  = count_entry (window_count cutoff by_ events k)
  end.
Proof.
  rewrite rolling_count_run.
  destruct (DT.sub_hours (clock n) window_hours) as [cutoff|e]; [|reflexivity].
  eexists. split; [reflexivity|]. apply count_loop_empty.
Qed.

(** X7. On rows whose line and SKU cells are text or absent,
    [MISSING_STANDARD] reports exactly the pairs of line and resolved SKU of
    Hourly Samples that the standards index does not hold, each once; a pair
    that has a standard is never reported. *)
Theorem missing_standard_hits hourly_rows standards_rows :
  text_columns ["Line"; "SKU_Resolved"] hourly_rows = true ->
  text_columns ["Line"; "SKU"] standards_rows = true ->
  NoDup (hits_missing_standard hourly_rows (standards_index standards_rows)) /\
  forall k,
    In k (hits_missing_standard hourly_rows (standards_index standards_rows)) <->
    (exists r, In r hourly_rows /\ k = [get r "Line"; get r "SKU_Resolved"]) /\
    ~ (exists s, In s standards_rows /\ k = [get s "Line"; get s "SKU"]).
Proof.
  intros _ _.
  unfold hits_missing_standard, set_of. split; [apply (dedup_NoDup key_eqb key_eqb_eq)|].
  intros k. rewrite (dedup_In key_eqb key_eqb_eq), in_map_iff.
  assert (Hidx : forall k0, In k0 (standards_index standards_rows) <->
                            exists s, In s standards_rows /\ k0 = [get s "Line"; get s "SKU"]).
  { intros k0. unfold standards_index, set_of.
    rewrite (dedup_In key_eqb key_eqb_eq), in_map_iff.
    split; intros (s & A & B); exists s; auto. }
  split.
  - intros (r & <- & Hr). apply filter_In in Hr as [Hr Hm]. split; [exists r; auto|].
    intros Hs. apply Hidx in Hs. apply (mem_In key_eqb key_eqb_eq) in Hs.
    unfold missing_standard in Hm. rewrite Hs in Hm. discriminate.
  - intros [(r & Hr & ->) Hn]. exists r. split; [reflexivity|].
    apply filter_In. split; [exact Hr|]. unfold missing_standard.
    destruct (mem key_eqb _ _) eqn:E; [|reflexivity].
    apply (mem_In key_eqb key_eqb_eq) in E. apply Hidx in E. contradiction.
Qed.

(** The theorem at the samples of two lines, one of which has a standard. *)
Lemma missing_standard_hits_witness :
  NoDup (hits_missing_standard two_lines_hourly
           (standards_index [[("Line", CStr "Line 1"); ("SKU", CNone)]])) /\
  forall k,
    In k (hits_missing_standard two_lines_hourly
            (standards_index [[("Line", CStr "Line 1"); ("SKU", CNone)]])) <->
    (exists r, In r two_lines_hourly /\ k = [get r "Line"; get r "SKU_Resolved"]) /\
    ~ (exists s, In s [[("Line", CStr "Line 1"); ("SKU", CNone)]] /\
                 k = [get s "Line"; get s "SKU"]).
Proof.
  apply (missing_standard_hits two_lines_hourly [[("Line", CStr "Line 1"); ("SKU", CNone)]]);
    reflexivity.
Defined.

(** X8. With a number of hours that is not positive, on rows whose grouping
    cells are text or absent, [consecutive_below] does not look at the
    values: a group is a hit exactly when it has more than [2 * |hours|]
    samples, so with [hours = 0] every group is a hit whatever the
    threshold. *)
Theorem consecutive_below_without_hours rows threshold hours groupby metric :
  hours <= 0 ->
  text_columns groupby rows = true ->
  Forall (fun r => is_ok (to_float (get r metric)) = true) rows ->
  exists hits,
    consecutive_below rows threshold hours groupby metric = Ok hits /\
    forall k,
      In k hits <->
      - (2 * hours) < Z.of_nat (List.length (samples_of rows groupby metric k)).
Proof.
  intros Hh _ Hok.
  destruct (group_values_spec rows groupby metric [] Hok) as (grouped & Hg & Hnd & Hne & Hval);
    [constructor | intros ? ? [] |].
  unfold consecutive_below. rewrite Hg. simpl. eexists. split; [reflexivity|].
  assert (Hhit : forall vs, group_hit threshold hours vs = true <->
                            - (2 * hours) < Z.of_nat (List.length vs)).
  { intros vs. unfold group_hit, slice_from.
    destruct (- (hours * 2) <? 0) eqn:E; [apply Z.ltb_lt in E; lia|].
    pose proof (length_skipn (Z.to_nat (- (hours * 2))) vs) as Hlen.
    destruct (skipn (Z.to_nat (- (hours * 2))) vs) as [|v rest] eqn:Es.
    - cbn [List.length] in Hlen. cbn [streak_reaches].
      split; [discriminate|]. intros H. exfalso. lia.
    - cbn [List.length] in Hlen. cbn [streak_reaches].
      destruct (hours <=? (if PrimFloat.ltb v threshold then 0 + 1 else 0)) eqn:El.
      + split; [|reflexivity]. lia.
      + apply Z.leb_gt in El. destruct (PrimFloat.ltb v threshold); lia. }
  intros k. specialize (Hval k). unfold values_of at 2 in Hval. simpl in Hval.
  rewrite <- Hval, in_map_iff. split.
  - intros ([k' vs] & <- & Hin). apply filter_In in Hin as [Hin Hh']. simpl in *.
    apply (kd_get_In key_eqb key_eqb_eq) in Hin; [|exact Hnd].
    unfold values_of. rewrite Hin. apply Hhit. exact Hh'.
  - intros Hlen. unfold values_of in Hlen.
    destruct (kd_get key_eqb grouped k) as [vs|] eqn:E.
    + apply (kd_get_In key_eqb key_eqb_eq) in E; [|exact Hnd].
      exists (k, vs). split; [reflexivity|]. apply filter_In. split; [exact E|].
      apply Hhit. exact Hlen.
    + exfalso. cbn [List.length Z.of_nat] in Hlen. destruct hours; lia.
Qed.

(** The theorem at [hours = 0] and samples all above the threshold. *)
Lemma consecutive_below_without_hours_witness :
  exists hits,
    consecutive_below (map (hourly_sample "Line 1") [0.9; 0.9]%float) 0.7 0 ["Line"]
      "TargetAttain" = Ok hits /\
    forall k,
      In k hits <->
      - (2 * 0) < Z.of_nat (List.length
                              (samples_of (map (hourly_sample "Line 1") [0.9; 0.9]%float)
                                 ["Line"] "TargetAttain" k)).
Proof.
  apply consecutive_below_without_hours.
  - lia.
  - reflexivity.
  - repeat constructor.
Defined.

(** ** [schedule_overlap] *)

Lemma slot_le_total a b : slot_le a b = true \/ slot_le b a = true.
Proof. unfold slot_le. rewrite !Z.leb_le. lia. Qed.

Lemma slot_le_trans a b c :
  slot_le a b = true -> slot_le b c = true -> slot_le a c = true.
Proof. unfold slot_le. rewrite !Z.leb_le. lia. Qed.

Lemma sorted_slots_app_r a l : sorted_slots (a ++ l) -> sorted_slots l.
Proof.
  induction a as [|x a IH]; simpl; intros H; [exact H|].
  inversion H; subst. apply IH. assumption.
Qed.

Lemma overlap_scan_cons p l : overlap_scan l = true -> overlap_scan (p :: l) = true.
Proof.
  intros H. destruct l as [|c rest]; [discriminate|]. simpl in *.
  destruct (snd p) as [e|]; [|exact H].
  destruct (fst c) as [s|]; [|exact H].
  destruct (s <? e); [reflexivity | exact H].
Qed.

Lemma overlap_scan_app a l : overlap_scan l = true -> overlap_scan (a ++ l) = true.
Proof.
  intros H. induction a as [|p a IH]; [exact H|]. simpl app.
  apply overlap_scan_cons. exact IH.
Qed.

(** The scan finds a slot and the next one that starts before it ends. *)
Lemma overlap_scan_adjacent l :
  overlap_scan l = true ->
  exists a x y c e s,
    l = (a ++ x :: y :: c)%list /\ snd x = Some e /\ fst y = Some s /\ s < e.
Proof.
  induction l as [|p l IH]; [discriminate|].
  destruct l as [|c rest]; [discriminate|].
  intros H.
  assert (Hrec : overlap_scan (c :: rest) = true ->
                 exists a x y c0 e s,
                   p :: c :: rest = (a ++ x :: y :: c0)%list /\
                   snd x = Some e /\ fst y = Some s /\ s < e).
  { intros Hr. destruct (IH Hr) as (a & x & y & c0 & e & s & E & A & B & C).
    exists (p :: a), x, y, c0, e, s. simpl. rewrite E. auto. }
  simpl in H.
  destruct (snd p) as [e|] eqn:Ee; [|apply Hrec; exact H].
  destruct (fst c) as [s|] eqn:Es; [|apply Hrec; exact H].
  destruct (s <? e) eqn:El; [|apply Hrec; exact H].
  exists [], p, c, rest, e, s. apply Z.ltb_lt in El. auto.
Qed.

(** In a sorted list of proper slots, a slot that starts before an earlier
    one ends makes the scan succeed. *)
Lemma overlap_scan_found a u b v c :
  sorted_slots (a ++ u :: b ++ v :: c) ->
  Forall proper_slot (a ++ u :: b ++ v :: c) ->
  (exists e s, snd u = Some e /\ fst v = Some s /\ s < e) ->
  overlap_scan (a ++ u :: b ++ v :: c) = true.
Proof.
  intros Hs Hp (e & s & He & Hv & Hlt). apply overlap_scan_app.
  apply sorted_slots_app_r in Hs. apply Forall_app in Hp as [_ Hp].
  destruct b as [|w b]; simpl in *.
  - rewrite He, Hv. apply Z.ltb_lt in Hlt. rewrite Hlt. reflexivity.
  - rewrite He.
    inversion Hs as [|? ? Hs' Hall]; subst.
    inversion Hs' as [|? ? _ Hw]; subst.
    apply Forall_app in Hw as [_ Hw]. inversion Hw as [|? ? Hwv _]; subst.
    inversion Hp as [|? ? _ Hp']; subst. inversion Hp' as [|? ? Hpw _]; subst.
    destruct w as [[sw|] [ew|]]; simpl in Hpw; try contradiction. simpl.
    unfold slot_le in Hwv. simpl in Hwv. rewrite Hv in Hwv. apply Z.leb_le in Hwv.
    assert (Hlt' : (sw <? e) = true) by (apply Z.ltb_lt; lia).
    rewrite Hlt'. reflexivity.
Qed.

(** A permutation that starts with two elements puts them at two places. *)
Lemma two_places {A} (x y : A) rest l :
  Permutation (x :: y :: rest) l ->
  exists a b c, l = (a ++ x :: b ++ y :: c)%list \/ l = (a ++ y :: b ++ x :: c)%list.
Proof.
  intros H.
  assert (Hx : In x l) by (eapply Permutation_in; [exact H | left; reflexivity]).
  apply in_split in Hx as (l1 & l2 & ->).
  apply Permutation_cons_app_inv in H.
  assert (Hy : In y (l1 ++ l2)) by (eapply Permutation_in; [exact H | left; reflexivity]).
  apply in_app_or in Hy as [Hy | Hy]; apply in_split in Hy as (m1 & m2 & ->).
  - exists m1, m2, l2. right. rewrite <- app_assoc. reflexivity.
  - exists l1, m1, m2. left. reflexivity.
Qed.

(** X9. For a line whose slots all have a start strictly before their end,
    [schedule_overlap] holds exactly when two of its slots overlap: one of
    them starts while the other is running.  Slots that only touch (one
    starts when the other ends) do not count. *)
Theorem schedule_overlap_iff schedule_rows line :
  Forall proper_slot (line_slots schedule_rows line) ->
  (schedule_overlap schedule_rows line = true <->
   exists x y rest,
     Permutation (x :: y :: rest) (line_slots schedule_rows line) /\ overlaps x y).
Proof.
  intros Hproper. unfold schedule_overlap. fold (line_slots schedule_rows line).
  set (slots := line_slots schedule_rows line) in *.
  pose proof (sort_by_perm slot_le slots) as Hperm.
  pose proof (sort_by_sorted slot_le slot_le_total slot_le_trans slots) as Hsorted.
  assert (HpL : Forall proper_slot (sort_by slot_le slots))
    by (eapply Permutation_Forall; eauto).
  split.
  - intros H. apply overlap_scan_adjacent in H as (a & x & y & c & e & s & E & He & Hs & Hlt).
    exists x, y, (a ++ c)%list. split.
    + rewrite Hperm, E. apply Permutation_cons_app.
      apply (Permutation_cons_app a c y). reflexivity.
    + rewrite E in Hsorted, HpL. apply sorted_slots_app_r in Hsorted.
      inversion Hsorted as [|? ? _ Hall]; subst. inversion Hall as [|? ? Hxy _]; subst.
      apply Forall_app in HpL as [_ HpL]. inversion HpL as [|? ? Hx _]; subst.
      destruct x as [[sx|] [ex|]]; simpl in Hx; try contradiction.
      destruct y as [[sy|] ey]; simpl in *; try discriminate.
      inversion He; inversion Hs; subst. unfold slot_le in Hxy. simpl in Hxy.
      apply Z.leb_le in Hxy. lia.
  - intros (x & y & rest & Hp & Hov).
    assert (HpL' : Permutation (x :: y :: rest) (sort_by slot_le slots))
      by (etransitivity; eauto).
    destruct (two_places x y rest _ HpL') as (a & b & c & [E | E]).
    + rewrite E in *. apply overlap_scan_found; auto.
      destruct x as [[sx|] [ex|]], y as [[sy|] ey]; simpl in Hov; try contradiction.
      exists ex, sy. simpl. repeat split; lia.
    + rewrite E in *. apply overlap_scan_found; auto.
      assert (Hyx : slot_le y x = true).
      { apply sorted_slots_app_r in Hsorted.
        inversion Hsorted as [|? ? _ Hall]; subst.
        apply Forall_app in Hall as [_ Hall]. inversion Hall; subst. assumption. }
      assert (Hy : proper_slot y).
      { apply Forall_app in HpL as [_ HpL]. inversion HpL; subst. assumption. }
      destruct x as [[sx|] [ex|]], y as [[sy|] [ey|]]; simpl in Hov, Hy; try contradiction.
      unfold slot_le in Hyx. simpl in Hyx. apply Z.leb_le in Hyx.
      exists ey, sx. simpl. repeat split; lia.
Qed.

(** The theorem at two slots of Line 1 that overlap by an hour. *)
Lemma schedule_overlap_iff_witness :
  schedule_overlap overlapping_schedule (CStr "Line 1") = true <->
  exists x y rest,
    Permutation (x :: y :: rest) (line_slots overlapping_schedule (CStr "Line 1")) /\
    overlaps x y.
Proof.
  apply schedule_overlap_iff.
  vm_compute. repeat constructor.
Defined.

(** ** Further properties of the parser *)

Lemma dict_set_keys {V} k (v : V) d :
  NoDup (map fst d) -> NoDup (map fst (dict_set k v d)).
Proof.
  induction d as [|[k' v'] d IH]; simpl; intros H.
  - repeat constructor. simpl. tauto.
  - inversion H as [|? ? Hk Hd]; subst.
    destruct (String.eqb k k') eqn:E; simpl; [exact H|].
    constructor; [|apply IH; exact Hd].
    intros Hin. apply Hk.
    clear -Hin E. induction d as [|[k2 v2] d IH]; simpl in *.
    + destruct Hin as [<- | []]. rewrite String.eqb_refl in E. discriminate.
    + destruct (String.eqb k k2) eqn:E2; simpl in *; [exact Hin|].
      destruct Hin as [H | H]; [left; exact H | right; apply IH; exact H].
Qed.

Lemma dict_get_set_same {V} k (v : V) d : dict_get (dict_set k v d) k = Some v.
Proof.
  induction d as [|[k' v'] d IH]; simpl.
  - rewrite String.eqb_refl. reflexivity.
  - destruct (String.eqb k k') eqn:E; simpl; rewrite E; [reflexivity | exact IH].
Qed.

Lemma dict_get_set_other {V} k k2 (v : V) d :
  k2 <> k -> dict_get (dict_set k v d) k2 = dict_get d k2.
Proof.
  intros Hne. induction d as [|[k' v'] d IH]; simpl.
  - apply String.eqb_neq in Hne. rewrite Hne. reflexivity.
  - destruct (String.eqb k k') eqn:E; simpl.
    + apply String.eqb_eq in E. subst k'. apply String.eqb_neq in Hne. rewrite Hne.
      reflexivity.
    + rewrite IH. reflexivity.
Qed.

Lemma parse_args_keys parts : forall args d,
  parse_args parts args = Ok d -> NoDup (map fst args) -> NoDup (map fst d).
Proof.
  induction parts as [|part rest IH]; simpl; intros args d H Hnd.
  - inversion H; subst. exact Hnd.
  - destruct (nonempty (Py.strip part)); [|eapply IH; eauto].
    destruct (Py.split_once "=" part) as [[k v]|]; [|discriminate].
    eapply IH; [exact H|]. apply dict_set_keys. exact Hnd.
Qed.

Lemma parse_args_snoc parts : forall args d part k v,
  parse_args parts args = Ok d ->
  nonempty (Py.strip part) = true ->
  Py.split_once "=" part = Some (k, v) ->
  exists d',
    parse_args (parts ++ [part]) args = Ok d' /\
    dict_get d' (Py.strip k) = Some (literal (Py.strip_quotes (Py.strip v))) /\
    forall k2, k2 <> Py.strip k -> dict_get d' k2 = dict_get d k2.
Proof.
  induction parts as [|p rest IH]; simpl; intros args d part k v H Hne Hs.
  - inversion H; subst. rewrite Hne, Hs. eexists. split; [reflexivity|]. split.
    + apply dict_get_set_same.
    + intros k2 Hk. apply dict_get_set_other. exact Hk.
  - destruct (nonempty (Py.strip p)); [|eapply IH; eauto].
    destruct (Py.split_once "=" p) as [[k0 v0]|]; [|discriminate].
    eapply IH; eauto.
Qed.

(** X19. An argument written last wins: when the parts [parts] of a call
    are read without error, none of the parts holding a numeral of more than
    4300 digits, reading one more part [key=text] after them does not fail,
    sets [key] to the literal of [text], whatever [key] held, and leaves the
    other keys as they were. *)
Theorem parse_args_last parts args d part k v :
  Forall (fun p => (longest_digit_run p <= int_max_str_digits)%nat) (parts ++ [part]) ->
  parse_args parts args = Ok d ->
  nonempty (Py.strip part) = true ->
  Py.split_once "=" part = Some (k, v) ->
  exists d',
    parse_args (parts ++ [part]) args = Ok d' /\
    dict_get d' (Py.strip k) = Some (literal (Py.strip_quotes (Py.strip v))) /\
    forall k2, k2 <> Py.strip k -> dict_get d' k2 = dict_get d k2.
Proof.
  intros _. apply parse_args_snoc.
Qed.

(** The theorem at [a=1] followed by [a=2]. *)
Lemma parse_args_last_witness :
  exists d',
    parse_args (["a=1"] ++ ["a=2"]) [] = Ok d' /\
    dict_get d' (Py.strip "a") = Some (literal (Py.strip_quotes (Py.strip "2"))) /\
    forall k2, k2 <> Py.strip "a" -> dict_get d' k2 = dict_get [("a", VInt 1)] k2.
Proof.
  apply (parse_args_last ["a=1"] [] [("a", VInt 1)] "a=2" "a" "2"); try reflexivity.
  repeat constructor; apply Nat.leb_le; vm_compute; reflexivity.
Defined.

(** X10. A call that parses has a well-formed name and a well-formed
    argument map: the name is not empty, is made of upper-case letters and
    underscores, and is the one the stripped text starts with, before its
    opening parenthesis; and no argument key occurs twice in the map. *)
Theorem parse_call_well_formed expr fn args :
  parse_call expr = Ok (fn, args) ->
  fn <> "" /\ Py.sall Py.is_upper_us fn = true /\
  (exists raw rest, Py.strip expr = fn ++ "(" ++ raw ++ ")" ++ rest) /\
  NoDup (map fst args).
Proof.
  unfold parse_call. intros H.
  destruct (match_call (Py.strip expr)) as [[fn' raw]|] eqn:Em; [|discriminate].
  unfold rbind in H.
  destruct (parse_args (split_args raw) []) as [d|] eqn:Ea; [|discriminate].
  inversion H; subst. clear H.
  unfold match_call in Em.
  destruct (Py.span Py.is_upper_us (Py.strip expr)) as [name rest] eqn:Es.
  apply span_spec in Es as (Hexpr & Hname & _).
  destruct name as [|c name]; [discriminate|].
  destruct rest as [|c0 body]; [discriminate|].
  destruct c0 as [[] [] [] [] [] [] [] []]; try discriminate.
  destruct (Py.span (fun c => negb (Ascii.eqb c Py.nl)) body) as [line tail] eqn:El.
  apply span_spec in El as (Hbody & _ & _). simpl fst in Em.
  destruct (before_last ")" line) as [raw'|] eqn:Eb; [|discriminate].
  inversion Em; subst. apply before_last_some in Eb as [r ->].
  split; [discriminate|]. split; [exact Hname|]. split.
  - exists raw, (r ++ tail). rewrite Hexpr. simpl. rewrite !append_assoc. reflexivity.
  - eapply parse_args_keys; [exact Ea | constructor].
Qed.

(** The theorem at a call that gives one key twice. *)
Lemma parse_call_well_formed_witness :
  "F" <> "" /\ Py.sall Py.is_upper_us "F" = true /\
  (exists raw rest, Py.strip " F(a=1, a=2) " = "F" ++ "(" ++ raw ++ ")" ++ rest) /\
  NoDup (map fst [("a", VInt 2)]).
Proof.
  apply (parse_call_well_formed " F(a=1, a=2) " "F" [("a", VInt 2)]).
  reflexivity.
Defined.

Lemma span_all p s : Py.sall p s = true -> Py.span p s = (s, "").
Proof.
  induction s as [|c s IH]; simpl; intros H; [reflexivity|].
  apply andb_prop in H as [Hc Hs]. rewrite Hc, (IH Hs). reflexivity.
Qed.

Lemma lstrip_all p s : Py.sall p s = true -> Py.lstrip_by p s = "".
Proof.
  induction s as [|c s IH]; simpl; intros H; [reflexivity|].
  apply andb_prop in H as [Hc Hs]. rewrite Hc. apply IH. exact Hs.
Qed.

Lemma split_and_blank s :
  Py.sall Py.is_space s = true -> split_and_go O s = (s, []).
Proof.
  induction s as [|c s IH]; intros H; [reflexivity|].
  assert (Hm : and_match_len (String c s) = None).
  { unfold and_match_len. rewrite (span_all _ _ H). reflexivity. }
  cbn [split_and_go]. rewrite Hm.
  simpl in H. apply andb_prop in H as [_ Hs]. rewrite (IH Hs). reflexivity.
Qed.

(** X11. A condition that is empty or holds white space only parses to no
    call at all, without an error. *)
Theorem parse_iflogic_blank (iflogic : string) :
  Py.sall Py.is_space iflogic = true -> parse_iflogic iflogic = Ok [].
Proof.
  intros H. unfold parse_iflogic, split_and. rewrite (split_and_blank _ H). simpl.
  unfold Py.strip, Py.strip_by. rewrite (lstrip_all _ _ H). reflexivity.
Qed.

(** The theorem at a condition of three spaces. *)
Lemma parse_iflogic_blank_witness : parse_iflogic "   " = Ok [].
Proof. apply parse_iflogic_blank. reflexivity. Defined.

(** ** Further properties of the coercions *)

Lemma to_float_not_int v : not_an_int v = true -> is_ok (to_float v) = true.
Proof.
  destruct v; simpl; try reflexivity; try discriminate.
  - intros _. destruct s; [reflexivity|].
    match goal with |- context [if ?b then _ else _] => destruct b end; [reflexivity|].
    match goal with |- context [match ?o with Some _ => _ | None => _ end] => destruct o end;
      reflexivity.
  - intros _.
    match goal with |- context [if ?b then _ else _] => destruct b end; [reflexivity|].
    match goal with |- context [match ?o with Some _ => _ | None => _ end] => destruct o end;
      reflexivity.
Qed.

(** X12. [to_float] raises only on an integer (one too large for a float):
    on every other cell it returns a float, which is zero for [None], for the
    empty string, for a text that starts with [=] once stripped and for a
    text that does not read as a float.  So [consecutive_below] returns a
    result whenever no metric cell holds an integer. *)
Theorem to_float_defaults :
  (forall v, not_an_int v = true -> is_ok (to_float v) = true)
  /\ to_float CNone = Ok zero
  /\ to_float (CStr "") = Ok zero
  /\ (forall s, prefix "=" (Py.strip s) = true -> to_float (CStr s) = Ok zero)
  /\ (forall s, Num.float_of_str (Py.strip s) = None -> to_float (CStr s) = Ok zero)
  /\ (forall rows threshold hours groupby metric,
        Forall (fun r => not_an_int (get r metric) = true) rows ->
        is_ok (consecutive_below rows threshold hours groupby metric) = true).
Proof.
  split; [exact to_float_not_int|]. split; [reflexivity|]. split; [reflexivity|].
  split; [|split].
  - intros s H. destruct s; [reflexivity|]. unfold to_float, is_blank, py_str.
    rewrite H. reflexivity.
  - intros s H. destruct s; [reflexivity|]. unfold to_float, is_blank, py_str.
    rewrite H. destruct (prefix "=" _); reflexivity.
  - intros rows thr h groupby metric Hrows.
    assert (Hok : Forall (fun r => is_ok (to_float (get r metric)) = true) rows).
    { eapply Forall_impl; [|exact Hrows]. intros r. apply to_float_not_int. }
    destruct (group_values_spec rows groupby metric [] Hok) as (grouped & Hg & _);
      [constructor | intros ? ? [] |].
    unfold consecutive_below. rewrite Hg. reflexivity.
Qed.

(** The theorem at samples whose metric cells hold a text, nothing and a
    float. *)
Lemma to_float_defaults_witness :
  is_ok (consecutive_below
           [[("Line", CStr "Line 1"); ("TargetAttain", CStr "=A1/B1")];
            [("Line", CStr "Line 1")];
            [("Line", CStr "Line 1"); ("TargetAttain", CFloat 0.5)]]
           0.7 2 ["Line"] "TargetAttain") = true.
Proof.
  apply (proj2 (proj2 (proj2 (proj2 (proj2 to_float_defaults))))).
  repeat constructor.
Defined.

(** ** [lint_rules] *)

Lemma parse_args_message_spec parts : forall args,
  match parse_args parts args with
  | Ok _ => parse_args_message parts = None
  | Err _ => parse_args_message parts = Some unpack_message
  end.
Proof.
  induction parts as [|part rest IH]; simpl; intros args; [reflexivity|].
  destruct (nonempty (Py.strip part)); [|apply IH].
  destruct (Py.split_once "=" part) as [[k v]|]; [apply IH | reflexivity].
Qed.

Lemma parse_call_message_spec expr :
  match parse_call expr with
  | Ok _ => parse_call_message expr = None
  | Err _ => parse_call_message expr = Some unpack_message \/
             parse_call_message expr = Some ("Invalid DSL expression: " ++ expr)
  end.
Proof.
  unfold parse_call, parse_call_message.
  destruct (match_call (Py.strip expr)) as [[fn raw]|]; [|right; reflexivity].
  pose proof (parse_args_message_spec (split_args raw) []) as H.
  destruct (parse_args (split_args raw) []); simpl; [exact H | left; exact H].
Qed.

Lemma parse_chunks_message_spec chunks :
  match parse_chunks chunks with
  | Ok _ => parse_chunks_message chunks = None
  | Err _ => exists m, parse_chunks_message chunks = Some m /\
             (m = unpack_message \/
              exists c, In c chunks /\ m = "Invalid DSL expression: " ++ c)
  end.
Proof.
  induction chunks as [|c rest IH]; simpl; [reflexivity|].
  assert (Hrest : match parse_chunks rest with
                  | Ok _ => parse_chunks_message rest = None
                  | Err _ => exists m, parse_chunks_message rest = Some m /\
                      (m = unpack_message \/
                       exists c', (c = c' \/ In c' rest) /\
                                  m = "Invalid DSL expression: " ++ c')
                  end).
  { destruct (parse_chunks rest); [exact IH|].
    destruct IH as (m & Hm & [-> | (c' & Hc' & ->)]); eexists; split; eauto. }
  clear IH.
  destruct (nonempty c); [|exact Hrest].
  pose proof (parse_call_message_spec c) as Hc.
  destruct (parse_call c) as [call|e]; simpl.
  - rewrite Hc. destruct (parse_chunks rest); simpl; exact Hrest.
  - destruct Hc as [-> | ->]; eexists; split; eauto.
Qed.

Lemma parse_iflogic_message_none text :
  parse_iflogic_message text = None <-> is_ok (parse_iflogic text) = true.
Proof.
  unfold parse_iflogic_message, parse_iflogic.
  pose proof (parse_chunks_message_spec (map Py.strip (split_and text))) as H.
  destruct (parse_chunks _); simpl.
  - split; auto.
  - destruct H as (m & -> & _). split; discriminate.
Qed.

Lemma filter_length_le {A} (f : A -> bool) l :
  (List.length (filter f l) <= List.length l)%nat.
Proof. induction l as [|x l IH]; simpl; [lia|]. destruct (f x); simpl; lia. Qed.

Lemma filter_length_all {A} (f : A -> bool) l :
  List.length (filter f l) = List.length l -> forall x, In x l -> f x = true.
Proof.
  induction l as [|y l IH]; simpl; intros H x Hx; [contradiction|].
  pose proof (filter_length_le f l) as Hle.
  destruct (f y) eqn:E; simpl in H; [|lia].
  destruct Hx as [<- | Hx]; [exact E|]. apply IH; [lia | exact Hx].
Qed.

Lemma dedup_length_le {A} (eqb : A -> A -> bool) l :
  (List.length (dedup eqb l) <= List.length l)%nat.
Proof.
  induction l as [|x l IH]; simpl; [lia|].
  pose proof (filter_length_le (fun y => negb (eqb x y)) (dedup eqb l)). lia.
Qed.

Lemma dedup_length_NoDup (l : list cell) :
  Nat.eqb (List.length (dedup cell_eqb l)) (List.length l) = true <-> NoDup l.
Proof.
  rewrite Nat.eqb_eq. split.
  - induction l as [|x l IH]; simpl; intros H; [constructor|].
    pose proof (filter_length_le (fun y => negb (cell_eqb x y)) (dedup cell_eqb l)) as H1.
    pose proof (dedup_length_le cell_eqb l) as H2.
    assert (Hl : List.length (dedup cell_eqb l) = List.length l) by lia.
    constructor; [|apply IH; exact Hl].
    intros Hx. apply (dedup_In cell_eqb cell_eqb_eq) in Hx.
    assert (Hf : List.length (filter (fun y => negb (cell_eqb x y)) (dedup cell_eqb l))
                 = List.length (dedup cell_eqb l)) by lia.
    pose proof (filter_length_all _ _ Hf x Hx) as Hc. simpl in Hc.
    rewrite (proj2 (cell_eqb_eq x x) eq_refl) in Hc. discriminate.
  - intros H. rewrite (dedup_id cell_eqb cell_eqb_eq l H). reflexivity.
Qed.

Lemma among_names v l : among v l = true <-> names v l.
Proof.
  unfold among, names. destruct v; try (split; [discriminate | intros (s' & E & _); discriminate]).
  rewrite existsb_exists. split.
  - intros (x & Hx & E). apply String.eqb_eq in E. subst. eauto.
  - intros (s' & E & Hs). inversion E; subst. exists s'. split; [exact Hs | apply String.eqb_refl].
Qed.

Lemma missing_fields_nil r : missing_fields r = [] <-> complete r.
Proof.
  unfold missing_fields, complete. split.
  - intros H c Hc.
    destruct (dict_get r c) as [v|] eqn:E.
    + exists v. split; [reflexivity|]. destruct (is_blank v) eqn:Eb; [|reflexivity].
      assert (Hin : In c (filter (fun c => match dict_get r c with
                                            | None => true | Some v => is_blank v end)
                            REQ_RULE_COLS)).
      { apply filter_In. split; [exact Hc|]. rewrite E. exact Eb. }
      rewrite H in Hin. contradiction.
    + assert (Hin : In c (filter (fun c => match dict_get r c with
                                            | None => true | Some v => is_blank v end)
                            REQ_RULE_COLS)).
      { apply filter_In. split; [exact Hc|]. rewrite E. reflexivity. }
      rewrite H in Hin. contradiction.
  - intros H.
    destruct (filter _ REQ_RULE_COLS) as [|c l] eqn:E; [reflexivity|].
    assert (Hin : In c (filter (fun c => match dict_get r c with
                                          | None => true | Some v => is_blank v end)
                          REQ_RULE_COLS)) by (rewrite E; left; reflexivity).
    apply filter_In in Hin as [Hc Hb]. destruct (H c Hc) as (v & Hv & Hnb).
    rewrite Hv, Hnb in Hb. discriminate.
Qed.

Lemma app_nil_iff {A} (a b : list A) : (a ++ b)%list = [] <-> a = [] /\ b = [].
Proof.
  split; [apply app_eq_nil|]. intros [-> ->]. reflexivity.
Qed.

Lemma if_nil_then {A} (b : bool) (x : A) : (if b then [] else [x]) = [] <-> b = true.
Proof. destruct b; split; intros H; (reflexivity || discriminate). Qed.

Lemma if_nil_else {A} (b : bool) (x : A) : (if b then [x] else []) = [] <-> b = false.
Proof. destruct b; split; intros H; (reflexivity || discriminate). Qed.

Lemma option_nil_none {A B} (o : option A) (f : A -> B) :
  match o with Some m => [f m] | None => [] end = [] <-> o = None.
Proof. destruct o; split; intros H; (reflexivity || discriminate). Qed.

Lemma row_issues_nil i r :
  row_issues i r = [] <->
  (enabled r = true -> complete r) /\
  names (get r "Severity") (map fst SEVERITY_ORDER) /\
  names (get r "Scope") SCOPES /\
  is_ok (parse_iflogic (condition r)) = true.
Proof.
  unfold row_issues. cbv zeta.
  rewrite !app_nil_iff, if_nil_else, !if_nil_then, option_nil_none.
  rewrite <- (missing_fields_nil r), <- !among_names, <- parse_iflogic_message_none.
  fold (condition r).
  assert (H : (match missing_fields r with [] => false | _ :: _ => true end
               && enabled r)%bool = false <->
              (enabled r = true -> missing_fields r = [])).
  { destruct (missing_fields r) as [|c l]; destruct (enabled r); simpl; split; intros H;
      first [ reflexivity | specialize (H eq_refl); discriminate H | discriminate H
            | intros E; reflexivity | intros E; discriminate E ]. }
  rewrite H. reflexivity.
Qed.

Lemma lint_rows_nil rules : forall i,
  lint_rows i rules = [] <-> forall r, In r rules -> row_issues i r = [].
Proof.
  induction rules as [|r rest IH]; intros i; simpl.
  - split; [intros _ ? [] | reflexivity].
  - rewrite app_nil_iff, (IH (i + 1)). split.
    + intros [H1 H2] r' [<- | Hr]; [exact H1|].
      apply (row_issues_nil i). apply (row_issues_nil (i + 1)). apply H2. exact Hr.
    + intros H. split; [apply H; left; reflexivity|].
      intros r' Hr. apply (row_issues_nil (i + 1)). apply (row_issues_nil i).
      apply H. right. exact Hr.
Qed.

(** X13. On a table whose rule identifiers are text or absent, the linter
    reports nothing exactly when the identifiers are pairwise different and
    every rule, enabled or not, has one of the four severities, one of the
    four scopes and a condition that parses, the enabled rules holding
    besides something in each required column. *)
Theorem lint_clean_iff rules :
  text_ids rules = true ->
  (lint_rules rules = [] <->
   NoDup (map (fun r => get r "RuleID") rules) /\
   forall r, In r rules ->
     (enabled r = true -> complete r) /\
     names (get r "Severity") ["Urgent"; "Action"; "Watch"; "Info"] /\
     names (get r "Scope") ["Line"; "Machine"; "Operator"; "Shift"] /\
     is_ok (parse_iflogic (condition r)) = true).
Proof.
  intros _.
  unfold lint_rules. rewrite app_nil_iff, (lint_rows_nil rules 2).
  rewrite <- dedup_length_NoDup.
  destruct (Nat.eqb _ _).
  - split.
    + intros [_ H]. split; [reflexivity|]. intros r Hr.
      apply (row_issues_nil 2). apply H. exact Hr.
    + intros [_ H]. split; [reflexivity|]. intros r Hr.
      apply (row_issues_nil 2). apply H. exact Hr.
  - split; intros [H _]; discriminate.
Qed.

(** The theorem at a table of two rules, the second of which does not
    parse. *)
Lemma lint_clean_iff_witness :
  lint_rules lint_sample = [] <->
  NoDup (map (fun r => get r "RuleID") lint_sample) /\
  forall r, In r lint_sample ->
    (enabled r = true -> complete r) /\
    names (get r "Severity") ["Urgent"; "Action"; "Watch"; "Info"] /\
    names (get r "Scope") ["Line"; "Machine"; "Operator"; "Shift"] /\
    is_ok (parse_iflogic (condition r)) = true.
Proof.
  apply (lint_clean_iff lint_sample). reflexivity.
Defined.

Lemma lint_rows_nth rules : forall i n r issue,
  nth_error rules n = Some r ->
  In issue (row_issues (i + Z.of_nat n) r) ->
  In issue (lint_rows i rules).
Proof.
  induction rules as [|r0 rest IH]; intros i n r issue Hn Hin.
  - destruct n; discriminate.
  - simpl. apply in_or_app. destruct n as [|n].
    + left. simpl in Hn. inversion Hn; subst. rewrite Z.add_0_r in Hin. exact Hin.
    + right. apply (IH (i + 1) n r); [exact Hn|].
      replace (i + 1 + Z.of_nat n) with (i + Z.of_nat (S n)) by lia. exact Hin.
Qed.

(** X14. A rule whose condition does not parse, and holds no numeral of
    more than 4300 digits, is reported by the linter, whether or not it is
    enabled, under the number of its place in the table plus two, with the
    text of the parser's exception: the unpacking error, or the
    invalid-expression message with one of the stripped chunks of the
    condition. *)
Theorem lint_reports_parse_errors rules n r e :
  nth_error rules n = Some r ->
  (longest_digit_run (condition r) <= int_max_str_digits)%nat ->
  parse_iflogic (condition r) = Err e ->
  exists m,
    In ("Row " ++ Num.str_of_Z (Z.of_nat n + 2) ++ ": DSL parse error " ++ m)
       (lint_rules rules) /\
    (m = unpack_message \/
     exists c, In c (map Py.strip (split_and (condition r))) /\
               m = "Invalid DSL expression: " ++ c).
Proof.
  intros Hn _ He.
  pose proof (parse_chunks_message_spec (map Py.strip (split_and (condition r)))) as H.
  unfold parse_iflogic in He. rewrite He in H. destruct H as (m & Hm & Hform).
  exists m. split; [|exact Hform].
  unfold lint_rules. apply in_or_app. right.
  apply (lint_rows_nth rules 2 n r); [exact Hn|].
  unfold row_issues. fold (condition r). unfold parse_iflogic_message. rewrite Hm.
  rewrite !in_app_iff. right. right. right. left.
  rewrite (Z.add_comm 2). rewrite <- !append_assoc. reflexivity.
Qed.

(** The theorem at the second rule of a table of two, [consec_below(hours=2)],
    which is reported as row 3. *)
Lemma lint_reports_parse_errors_witness :
  exists m,
    In ("Row " ++ Num.str_of_Z (Z.of_nat 1 + 2) ++ ": DSL parse error " ++ m)
       (lint_rules lint_sample) /\
    (m = unpack_message \/
     exists c, In c (map Py.strip (split_and (condition malformed_rule))) /\
               m = "Invalid DSL expression: " ++ c).
Proof.
  apply (lint_reports_parse_errors lint_sample 1 malformed_rule ValueError).
  - reflexivity.
  - apply Nat.leb_le. vm_compute. reflexivity.
  - vm_compute. reflexivity.
Defined.

Lemma row_text a b tail : (a ++ b) ++ ": " ++ tail = a ++ b ++ ": " ++ tail.
Proof. apply append_assoc. Qed.

Lemma row_issues_form i r issue :
  In issue (row_issues i r) ->
  exists rest, issue = "Row " ++ Num.str_of_Z i ++ ": " ++ rest.
Proof.
  unfold row_issues. cbv zeta. rewrite !in_app_iff.
  intros [H | [H | [H | H]]].
  - destruct (_ && enabled r)%bool; [|contradiction]. destruct H as [<- | []].
    exists ("missing required fields " ++ repr_names (missing_fields r)).
    apply row_text.
  - destruct (among (get r "Severity") _); [contradiction|]. destruct H as [<- | []].
    exists "invalid Severity". apply row_text.
  - destruct (among (get r "Scope") _); [contradiction|]. destruct H as [<- | []].
    exists "invalid Scope". apply row_text.
  - destruct (parse_iflogic_message _) as [m|]; [|contradiction]. destruct H as [<- | []].
    exists ("DSL parse error " ++ m). apply row_text.
Qed.

Lemma row_issues_length i r : (List.length (row_issues i r) <= 4)%nat.
Proof.
  unfold row_issues. rewrite !length_app.
  destruct (_ && _)%bool; destruct (among _ _); destruct (among _ _);
    destruct (parse_iflogic_message _); simpl; lia.
Qed.

Lemma lint_rows_form rules : forall i issue,
  In issue (lint_rows i rules) ->
  exists n r rest,
    nth_error rules n = Some r /\
    issue = "Row " ++ Num.str_of_Z (Z.of_nat n + i) ++ ": " ++ rest.
Proof.
  induction rules as [|r0 rest IH]; intros i issue; simpl; [contradiction|].
  rewrite in_app_iff. intros [H | H].
  - apply row_issues_form in H as (tail & ->). exists O, r0, tail. split; reflexivity.
  - apply IH in H as (n & r & tail & Hn & ->). exists (S n), r, tail. split; [exact Hn|].
    replace (Z.of_nat (S n) + i) with (Z.of_nat n + (i + 1)) by lia. reflexivity.
Qed.

Lemma lint_rows_length rules : forall i,
  (List.length (lint_rows i rules) <= 4 * List.length rules)%nat.
Proof.
  induction rules as [|r rest IH]; intros i; simpl; [lia|].
  rewrite length_app. pose proof (row_issues_length i r). specialize (IH (i + 1)). lia.
Qed.

(** X15. On a table whose rule identifiers are text or absent, the report
    of the linter has a fixed shape: the duplicate message is in it exactly
    when two rules share an identifier, every other issue starts with the
    word Row and the number of the place of one of the rules plus two, and
    there are at most four issues for each rule besides the duplicate
    message. *)
Theorem lint_report_shape rules :
  text_ids rules = true ->
  (In duplicate_issue (lint_rules rules) <->
   ~ NoDup (map (fun r => get r "RuleID") rules)) /\
  (forall issue, In issue (lint_rules rules) ->
     issue = duplicate_issue \/
     exists n r rest,
       nth_error rules n = Some r /\
       issue = "Row " ++ Num.str_of_Z (Z.of_nat n + 2) ++ ": " ++ rest) /\
  (List.length (lint_rules rules) <= 1 + 4 * List.length rules)%nat.
Proof.
  intros _. unfold lint_rules.
  pose proof (dedup_length_NoDup (map (fun r => get r "RuleID") rules)) as Hd.
  split; [|split].
  - rewrite in_app_iff. split.
    + intros [H | H].
      * destruct (Nat.eqb _ _) eqn:E; [contradiction|].
        intros Hnd. apply Hd in Hnd. discriminate.
      * apply lint_rows_form in H as (n & r & rest & _ & H). discriminate.
    + intros H. left. destruct (Nat.eqb _ _); [|left; reflexivity].
      exfalso. apply H. apply Hd. reflexivity.
  - intros issue. rewrite in_app_iff. intros [H | H].
    + destruct (Nat.eqb _ _); [contradiction|]. destruct H as [<- | []]. left. reflexivity.
    + right. apply lint_rows_form in H. exact H.
  - rewrite length_app. pose proof (lint_rows_length rules 2).
    destruct (Nat.eqb _ _); simpl; lia.
Qed.

(** The theorem at a table of two rules with different identifiers. *)
Lemma lint_report_shape_witness :
  (In duplicate_issue (lint_rules lint_sample) <->
   ~ NoDup (map (fun r => get r "RuleID") lint_sample)) /\
  (forall issue, In issue (lint_rules lint_sample) ->
     issue = duplicate_issue \/
     exists n r rest,
       nth_error lint_sample n = Some r /\
       issue = "Row " ++ Num.str_of_Z (Z.of_nat n + 2) ++ ": " ++ rest) /\
  (List.length (lint_rules lint_sample) <= 1 + 4 * List.length lint_sample)%nat.
Proof.
  apply (lint_report_shape lint_sample). reflexivity.
Defined.

(** ** [missing_schedule_for_hourly] *)

Lemma missing_schedule_app a : forall b line hour,
  missing_schedule_for_hourly (a ++ b) line hour
  = (missing_schedule_for_hourly a line hour && missing_schedule_for_hourly b line hour)%bool.
Proof.
  induction a as [|r a IH]; intros b line hour; simpl; [reflexivity|].
  destruct (negb (cell_eqb (get r "Line") line)); [apply IH|].
  destruct (parse_dt (get r "StartDT")) as [st|]; [|apply IH].
  destruct (parse_dt (get r "EndDT")) as [en|]; [|apply IH].
  destruct ((st <=? hour) && (hour <=? en))%bool; [reflexivity | apply IH].
Qed.

(** X16. An hour of a line is covered (not missing) exactly when one
    schedule row of that line has a start and an end that both parse and lie
    on either side of the hour, both ends included; the rows of two tables
    put together cover what either covers, so adding rows never uncovers an
    hour. *)
Theorem missing_schedule_for_hourly_iff schedule_rows line hour :
  (missing_schedule_for_hourly schedule_rows line hour = false <->
   exists st en,
     In (Some st, Some en) (line_slots schedule_rows line) /\ st <= hour <= en) /\
  (forall more,
     missing_schedule_for_hourly (schedule_rows ++ more) line hour
     = (missing_schedule_for_hourly schedule_rows line hour
        && missing_schedule_for_hourly more line hour)%bool).
Proof.
  split; [|intros more; apply missing_schedule_app].
  unfold line_slots.
  induction schedule_rows as [|r rest IH]; simpl.
  - split; [discriminate | intros (st & en & [] & _)].
  - destruct (cell_eqb (get r "Line") line); simpl.
    + destruct (parse_dt (get r "StartDT")) as [st|] eqn:Es;
        destruct (parse_dt (get r "EndDT")) as [en|] eqn:Ee.
      * destruct ((st <=? hour) && (hour <=? en))%bool eqn:E.
        -- split; [|reflexivity]. intros _. exists st, en.
           apply andb_true_iff in E as [E1 E2]. apply Z.leb_le in E1, E2.
           split; [left; reflexivity | lia].
        -- rewrite IH. split.
           ++ intros (s & e & H & Hb). exists s, e. split; [right; exact H | exact Hb].
           ++ intros (s & e & [H | H] & Hb); [|exists s, e; split; assumption].
              inversion H; subst. exfalso.
              apply andb_false_iff in E as [E | E]; apply Z.leb_gt in E; lia.
      * rewrite IH. split.
        -- intros (s & e & H & Hb). exists s, e. split; [right; exact H | exact Hb].
        -- intros (s & e & [H | H] & Hb); [discriminate | exists s, e; split; assumption].
      * rewrite IH. split.
        -- intros (s & e & H & Hb). exists s, e. split; [right; exact H | exact Hb].
        -- intros (s & e & [H | H] & Hb); [discriminate | exists s, e; split; assumption].
      * rewrite IH. split.
        -- intros (s & e & H & Hb). exists s, e. split; [right; exact H | exact Hb].
        -- intros (s & e & [H | H] & Hb); [discriminate | exists s, e; split; assumption].
    + exact IH.
Qed.

(** ** [ROLLING_COUNT] *)

Lemma threshold_hits (counts : list (key * Z)) (cnt : key -> Z) (least : Z) :
  NoDup (map fst counts) ->
  (forall k, 0 <= cnt k) ->
  (forall k, kd_get key_eqb counts k = count_entry (cnt k)) ->
  NoDup (map fst (filter (fun kc => least <=? snd kc) counts)) /\
  forall k, In k (map fst (filter (fun kc => least <=? snd kc) counts)) <->
            0 < cnt k /\ least <= cnt k.
Proof.
  intros Hnd Hpos Hget.
  assert (Hin : forall k c, In (k, c) counts <-> c = cnt k /\ 0 < c).
  { intros k c. rewrite <- (kd_get_In key_eqb key_eqb_eq k c counts Hnd), Hget.
    unfold count_entry. specialize (Hpos k).
    destruct (_ =? 0) eqn:E.
    - apply Z.eqb_eq in E. split; [discriminate|]. intros [-> H0]. lia.
    - apply Z.eqb_neq in E. split.
      + intros H. inversion H; subst. split; [reflexivity | lia].
      + intros [-> _]. reflexivity. }
  split; [apply NoDup_keys_filter; exact Hnd|].
  intros k. rewrite in_map_iff. split.
  - intros ([k' c] & <- & Hf). apply filter_In in Hf as [Hf Hle]. simpl in *.
    apply Hin in Hf as [-> H0]. apply Z.leb_le in Hle. split; assumption.
  - intros [H0 Hle]. exists (k, cnt k). split; [reflexivity|]. apply filter_In. split.
    + apply Hin. split; [reflexivity | exact H0].
    + simpl. apply Z.leb_le. exact Hle.
Qed.

Lemma window_count_nonneg cutoff by_ events k : 0 <= window_count cutoff by_ events k.
Proof. unfold window_count. lia. Qed.



(** X18. On rows whose grouping cells and watched cell are text or absent,
    [repeats_same_value] reads the clock once.  It raises when the window
    does not give a date-time, and otherwise reports, each once, exactly the
    keys, made of the grouping fields followed by the watched field, that
    have at least one event within the window and at least [min_repeats] of
    them. *)
Theorem repeats_same_value_hits clock rows field min_repeats window_hours by_ n :
  text_columns (by_ ++ [field]) rows = true ->
  match DT.sub_hours (clock n) window_hours with
  | Err e => repeats_same_value clock rows field min_repeats window_hours by_ n = Err e
  | Ok cutoff =>
      exists hits,
        repeats_same_value clock rows field min_repeats window_hours by_ n
        = Ok (hits, S n) /\
        NoDup hits /\
        forall k,
          In k hits <->
          0 < window_count cutoff (by_ ++ [field])%list rows k /\
          min_repeats <= window_count cutoff (by_ ++ [field])%list rows k
  end.
Proof.
  intros _. unfold repeats_same_value, bind. rewrite rolling_count_run.
  destruct (DT.sub_hours (clock n) window_hours) as [cutoff|e]; [|reflexivity].
  destruct (count_loop_empty cutoff (by_ ++ [field])%list rows) as [Hnd Hget].
  unfold ret. eexists. split; [reflexivity|].
  apply (threshold_hits _ _ min_repeats Hnd
           (window_count_nonneg cutoff (by_ ++ [field])%list rows) Hget).
Qed.

(** The theorem at one stop of Line 1 at ten o'clock, watched over twelve
    hours. *)
Lemma repeats_same_value_hits_witness :
  match DT.sub_hours (frozen_clock 0%nat) 12 with
  | Err e =>
      repeats_same_value frozen_clock [stop_at "Line 1" ten_o_clock] "Cause" 1 12
        ["Line"] 0%nat = Err e
  | Ok cutoff =>
      exists hits,
        repeats_same_value frozen_clock [stop_at "Line 1" ten_o_clock] "Cause" 1 12
          ["Line"] 0%nat = Ok (hits, 1%nat) /\
        NoDup hits /\
        forall k,
          In k hits <->
          0 < window_count cutoff (["Line"] ++ ["Cause"])%list
                [stop_at "Line 1" ten_o_clock] k /\
          1 <= window_count cutoff (["Line"] ++ ["Cause"])%list
                 [stop_at "Line 1" ten_o_clock] k
  end.
Proof.
  apply (repeats_same_value_hits frozen_clock [stop_at "Line 1" ten_o_clock] "Cause" 1 12
           ["Line"] 0%nat).
  reflexivity.
Defined.
